(** * parserlib: the AST assembly layer (include/ast.hpp)

    A shallow embedding of the node / container / member classes of
    [ast.hpp] over an explicit object store, and the properties of the
    reconstruction algorithm, of the ownership discipline of [ast_ptr] and
    of the member registration protocol.

    Conventions of the embedding.
    - A heap object created by [new T] is an [object]: its dynamic class,
      the [m_members] vector it inherits from [ast_container], and its
      [ast_ptr] fields in declaration order.  Node classes are the ones the
      library is written for: classes derived from [ast_container] whose
      fields are [ast_ptr] members and whose constructors, copy operations
      and destructor are the compiler-generated ones.
    - A [T *] is an [option loc]; [None] is the null pointer.
    - An [ast_member *] is the pair of the enclosing object and the index of
      the field inside it.
    - [std::vector] is a list in index order: [back] is [last], [pop_back]
      is [removelast], [push_back x] appends [x].
    - Undefined behaviour of the C++ program (a failed [assert], the use of
      a dangling pointer, a double [delete]) is the outcome [Undefined].
    - [delete] and [new T( *p)] recurse through the heap; they take fuel, a
      bound on the depth of the subtree they walk, and every result about
      them holds for any fuel that reaches that depth. *)

From stdpp Require Import gmap list strings.

Set Default Proof Using "Type".

(** ** Outcomes *)

(** What a call comes to: a normal return, an exception in flight, undefined
    behaviour, or a recursion cut short for lack of fuel. *)
Inductive outcome (E A : Type) : Type :=
| Ok (a : A)
| Throw (e : E)
| Undefined
| OutOfFuel.

Arguments Ok {E A} a.
Arguments Throw {E A} e.
Arguments Undefined {E A}.
Arguments OutOfFuel {E A}.

(** Sequencing: anything but a normal return ends the computation. *)
Definition bind {E A B} (m : outcome E A) (k : A → outcome E B) : outcome E B :=
  match m with
  | Ok a => k a
  | Throw e => Throw e
  | Undefined => Undefined
  | OutOfFuel => OutOfFuel
  end.

(** An access that has no result is undefined behaviour. *)
Definition of_option {E A} (o : option A) : outcome E A :=
  match o with
  | Some a => Ok a
  | None => Undefined
  end.

#[global] Instance outcome_bind {E} : MBind (outcome E) := λ A B k m, bind m k.

(** A loop over a vector, threading the state. *)
Fixpoint foldM {E A S} (f : A → S → outcome E S) (l : list A) (s : S) : outcome E S :=
  match l with
  | [] => Ok s
  | a :: l' => s' ← f a s; foldM f l' s'
  end.

(** The class table of the client program: the classes of its nodes, the
    outcome of [dynamic_cast] between them ([is_a D T] when an object of
    dynamic class [D] casts to [T *]), and the [ast_ptr<Ti>] fields each
    class declares (inherited ones first), in declaration order. *)
Class class_table (cls : Type) := ClassTable {
  is_a : cls → cls → bool;
  fields : cls → list cls
}.

Section model.

Context `{class_table cls}.

(** ** Data model *)

(** Addresses of heap objects. *)
Definition loc := nat.

(** [T *] *)
Definition ptr := option loc.

(** [ast_member *] *)
Definition maddr := (loc * nat)%type.

(** [typedef std::vector<ast_node *> ast_stack] *)
Definition ast_stack := list ptr.

(** [typedef std::vector<ast_member *> ast_member_vector] *)
Definition ast_member_vector := list maddr.

(** [template <class T> class ast_ptr : public ast_member { T *m_ptr; }] *)
Record ast_ptr := AstPtr {
  m_T : cls;
  m_ptr : ptr
}.

(** An object of a node class: [m_members] is the private vector of
    [ast_container]. *)
Record object := Object {
  o_class : cls;
  m_members : ast_member_vector;
  o_fields : list ast_ptr
}.

(** Modelled from the spec: the construction registry is declared and used
    only in the implementation file of [ast_container] and [ast_member],
    which is not part of the header.  Following section 3 of the spec it
    "behaves as a LIFO stack of active containers, not a single overwritten
    pointer"; the head of the list is the container under construction. *)
Definition construction_registry := list loc.

(** The store: the live heap objects and the construction registry. *)
Record state := State {
  heap : gmap loc object;
  registry : construction_registry
}.

(** An exception in flight: [std::logic_error], with the stack and the store
    as they are when it is thrown. *)
Record exn := Exn {
  what : string;
  exn_stack : ast_stack;
  exn_state : state
}.

Abbreviation res := (outcome exn).

(** Updates of the two components of the store. *)
Definition set_heap (h : gmap loc object) (s : state) : state :=
  State h (registry s).

Definition set_registry (r : list loc) (s : state) : state :=
  State (heap s) r.

(** The member at an address, when the object that holds it is live. *)
Definition get_member (a : maddr) (s : state) : option ast_ptr :=
  match heap s !! a.1 with
  | Some o => o_fields o !! a.2
  | None => None
  end.

(** [this->m_ptr = p] *)
Definition set_m_ptr (a : maddr) (p : ptr) (s : state) : option state :=
  match heap s !! a.1 with
  | Some o =>
      match o_fields o !! a.2 with
      | Some m =>
          Some (set_heap (<[a.1 := Object (o_class o) (m_members o)
                                     (<[a.2 := AstPtr (m_T m) p]> (o_fields o))]>
                            (heap s)) s)
      | None => None
      end
  | None => None
  end.

(** ** Destruction *)

(** [~ast_ptr() { delete m_ptr; }], given [delete]. *)
Definition ast_ptr_dtor (delete : ptr → state → res state) (m : ast_ptr) (s : state)
    : res state :=
  delete (m_ptr m) s.

(** [delete p], with the compiler-generated destructor of the pointee: its
    fields are destroyed in reverse declaration order, then its storage is
    released.  Deleting a null pointer does nothing; deleting an object that
    is not live, or that one of its own fields has released, is undefined. *)
Fixpoint delete_node (fuel : nat) (p : ptr) (s : state) : res state :=
  match p with
  | None => Ok s
  | Some l =>
      match fuel with
      | 0 => OutOfFuel
      | S f =>
          match heap s !! l with
          | None => Undefined
          | Some o =>
              s' ← foldM (ast_ptr_dtor (delete_node f)) (reverse (o_fields o)) s;
              match heap s' !! l with
              | None => Undefined
              | Some _ => Ok (set_heap (delete l (heap s')) s')
              end
          end
      end
  end.

(** ** The construction registry and member registration *)

(** The storage of a new object of class [T], before any constructor runs. *)
Definition alloc (l : loc) (T : cls) (s : state) : state :=
  set_heap (<[l := Object T [] []]> (heap s)) s.

(** Modelled from the spec: the default constructor of [ast_container] is
    only declared in the header.  "On entering its own construction (default
    or copy), pushes itself onto the construction-registry stack before any
    field is constructed" (section 4.2); the member vector starts empty. *)
Definition ast_container_ctor (this : loc) (s : state) : state :=
  set_registry (this :: registry s) s.

(** Modelled from the spec: the copy constructor of [ast_container] is only
    declared in the header.  It pushes the container like the default
    constructor, and "never cop[ies] the member list" (section 4.2; the
    header: "Members are not copied"). *)
Definition ast_container_copy_ctor (this src : loc) (s : state) : state :=
  set_registry (this :: registry s) s.

(** Modelled from the spec: the end of the construction of a container is
    not in the header.  The container "pops itself off after the last field
    finishes constructing" (section 4.2): the head of the registry, which is
    this container, is removed. *)
Definition ast_container_constructed (this : loc) (s : state) : res state :=
  match registry s with
  | c :: r => Ok (set_registry r s)
  | [] => Undefined
  end.

(** Modelled from the spec: [ast_member::_init] is only declared in the
    header.  It "appends itself to the member list of whatever Container is
    at the top of the construction-registry stack" (section 4.1); a member
    built while no container is under construction is a programming
    error. *)
Definition _init (this : maddr) (s : state) : res state :=
  match registry s with
  | c :: _ =>
      match heap s !! c with
      | Some o =>
          Ok (set_heap (<[c := Object (o_class o) (m_members o ++ [this]) (o_fields o)]>
                          (heap s)) s)
      | None => Undefined
      end
  | [] => Undefined
  end.

(** [ast_member() { _init(); }] *)
Definition ast_member_ctor (this : maddr) (s : state) : res state :=
  _init this s.

(** [ast_member(const ast_member &src) { _init(); }] *)
Definition ast_member_copy_ctor (this src : maddr) (s : state) : res state :=
  _init this s.

(** [ast_member &operator = (const ast_member &src) { return *this; }] *)
Definition ast_member_assign (this src : maddr) (s : state) : res state :=
  Ok s.

(** [ast_container &operator = (const ast_container &src) { return *this; }] *)
Definition ast_container_assign (this src : loc) (s : state) : res state :=
  Ok s.

(** The address of the next field of the object under construction at [l],
    and the storing of that field once its constructor has run. *)
Definition next_member (l : loc) (s : state) : option maddr :=
  match heap s !! l with
  | Some o => Some (l, length (o_fields o))
  | None => None
  end.

Definition emplace_member (l : loc) (m : ast_ptr) (s : state) : option state :=
  match heap s !! l with
  | Some o =>
      Some (set_heap (<[l := Object (o_class o) (m_members o) (o_fields o ++ [m])]>
                        (heap s)) s)
  | None => None
  end.

(** ** [ast_ptr<T>] *)

(** [ast_ptr(T *obj = 0) : m_ptr(obj) {}], for the next field of the object
    at [l]; the base [ast_member] is default-constructed first. *)
Definition ast_ptr_ctor (T : cls) (l : loc) (obj : ptr) (s : state) : res state :=
  this ← of_option (next_member l s);
  s1 ← ast_member_ctor this s;
  of_option (emplace_member l (AstPtr T obj) s1).

(** [p ? new T( *p) : 0], given [new T( *p)]. *)
Definition clone_ptr (new_copy : cls → loc → state → res (loc * state))
    (T : cls) (p : ptr) (s : state) : res (ptr * state) :=
  match p with
  | Some l => '(l', s') ← new_copy T l s; Ok (Some l', s')
  | None => Ok (None, s)
  end.

(** [ast_ptr(const ast_ptr<T> &src) : m_ptr(src.m_ptr ? new T( *src.m_ptr) : 0) {}],
    for the next field of the object at [l].  The mem-initializer list names
    no base, so [ast_member] is default-constructed, before [m_ptr] is
    initialized. *)
Definition ast_ptr_copy_ctor (new_copy : cls → loc → state → res (loc * state))
    (T : cls) (l : loc) (src : maddr) (s : state) : res state :=
  this ← of_option (next_member l s);
  s1 ← ast_member_ctor this s;
  msrc ← of_option (get_member src s1);
  '(p, s2) ← clone_ptr new_copy T (m_ptr msrc) s1;
  of_option (emplace_member l (AstPtr T p) s2).

(** [new T( *src)] with the compiler-generated copy constructor of [T]: the
    [ast_container] base is copy-constructed, then every field of [T] from
    the field of the source at the same place. *)
Fixpoint new_copy (fuel : nat) (T : cls) (src : loc) (s : state) : res (loc * state) :=
  match fuel with
  | 0 => OutOfFuel
  | S f =>
      match heap s !! src with
      | None => Undefined
      | Some _ =>
          let l := fresh (dom (heap s)) in
          let s1 := ast_container_copy_ctor l src (alloc l T s) in
          s2 ← foldM (fun '(i, Ti) => ast_ptr_copy_ctor (new_copy f) Ti l (src, i))
                     (imap pair (fields T)) s1;
          s3 ← ast_container_constructed l s2;
          Ok (l, s3)
      end
  end.

(** [new T] with the compiler-generated default constructor of [T]: every
    field is an [ast_ptr] holding the null pointer. *)
Definition new_default (T : cls) (s : state) : res (loc * state) :=
  let l := fresh (dom (heap s)) in
  let s1 := ast_container_ctor l (alloc l T s) in
  s2 ← foldM (fun Ti => ast_ptr_ctor Ti l None) (fields T) s1;
  s3 ← ast_container_constructed l s2;
  Ok (l, s3).

(** [ast_ptr<T> &operator = (const T *obj)] *)
Definition ast_ptr_assign_raw (fuel : nat) (this : maddr) (obj : ptr) (s : state)
    : res state :=
  m ← of_option (get_member this s);
  s1 ← delete_node fuel (m_ptr m) s;
  '(p, s2) ← clone_ptr (new_copy fuel) (m_T m) obj s1;
  of_option (set_m_ptr this p s2).

(** [ast_ptr<T> &operator = (const ast_ptr<T> &src)]; [src.m_ptr] is read
    after the old object is deleted. *)
Definition ast_ptr_assign (fuel : nat) (this src : maddr) (s : state) : res state :=
  m ← of_option (get_member this s);
  s1 ← delete_node fuel (m_ptr m) s;
  msrc ← of_option (get_member src s1);
  '(p, s2) ← clone_ptr (new_copy fuel) (m_T m) (m_ptr msrc) s1;
  of_option (set_m_ptr this p s2).

(** [T *get() const] *)
Definition get (this : maddr) (s : state) : res ptr :=
  m ← of_option (get_member this s);
  Ok (m_ptr m).

(** [dynamic_cast<T *>(node)]: null for a null pointer and for an object
    whose class is not [T] or derived from it. *)
Definition dynamic_cast (T : cls) (node : ptr) (s : state) : res ptr :=
  match node with
  | None => Ok None
  | Some l =>
      match heap s !! l with
      | Some o => Ok (if is_a (o_class o) T then Some l else None)
      | None => Undefined
      end
  end.

(** The message of the [std::logic_error]. *)
Definition invalid_AST_node : string := "invalid AST node".

(** [virtual void construct(ast_stack &st)] of [ast_ptr<T>] *)
Definition ast_ptr_construct (fuel : nat) (this : maddr) (st : ast_stack) (s : state)
    : res (ast_stack * state) :=
  m ← of_option (get_member this s);
  (* assert(!st.empty()); ast_node *node = st.back(); *)
  node ← of_option (last st);
  (* T *obj = dynamic_cast<T *>(node); *)
  obj ← dynamic_cast (m_T m) node s;
  match obj with
  | None =>
      (* if (!obj) throw std::logic_error("invalid AST node"); *)
      Throw (Exn invalid_AST_node st s)
  | Some _ =>
      (* st.pop_back(); *)
      let st' := removelast st in
      (* delete m_ptr; *)
      s1 ← delete_node fuel (m_ptr m) s;
      (* m_ptr = obj; *)
      s2 ← of_option (set_m_ptr this obj s1);
      Ok (st', s2)
  end.

(** ** [ast_container::construct] *)

(** Modelled from the spec: the body of [ast_container::construct] is not in
    the header.  It "iterates its member list in reverse registration order
    and calls each member's construct(stack)" (section 4.2); the comment in
    the header agrees ("The members are asked to construct themselves in
    reverse order").  The positions [b] and [e] of the match play no part and
    are left out. *)
Definition ast_container_construct (fuel : nat) (this : loc) (st : ast_stack) (s : state)
    : res (ast_stack * state) :=
  o ← of_option (heap s !! this);
  foldM (fun member '(st, s) => ast_ptr_construct fuel member st s)
        (reverse (m_members o)) (st, s).

(** ** The action binder: [ast<T>::_parse_proc] *)

(** [static void _parse_proc(const pos &b, const pos &e, void *d)], for a
    node class [T] that inherits [construct] from [ast_container]; [d] is the
    stack. *)
Definition _parse_proc (fuel : nat) (T : cls) (st : ast_stack) (s : state)
    : res (ast_stack * state) :=
  (* T *obj = new T; *)
  '(obj, s1) ← new_default T s;
  (* obj->construct(b, e, *st); *)
  '(st1, s2) ← ast_container_construct fuel obj st s1;
  (* st->push_back(obj); *)
  Ok (st1 ++ [Some obj], s2).

End model.

Arguments ast_ptr : clear implicits.
Arguments object : clear implicits.
Arguments state : clear implicits.
Arguments exn : clear implicits.

(** ** Owned subtrees *)

(** The subtree an owning pointer holds, read off the heap: for every object
    its address, its dynamic class, its member vector, and for every
    [ast_ptr<Ti>] field the static type [Ti] and the subtree it owns. *)
#[warnings="-register-all"]
Inductive tree (cls : Type) : Type :=
| Node (l : loc) (c : cls) (ms : ast_member_vector) (kids : list (cls * option (tree cls))).

Arguments Node {cls} l c ms kids.

(** A subtree without its addresses. *)
#[warnings="-register-all"]
Inductive shape (cls : Type) : Type :=
| Shape (c : cls) (kids : list (cls * option (shape cls))).

Arguments Shape {cls} c kids.

Section trees.

Context `{class_table cls}.

(** The address of the object a subtree starts from. *)
Definition root (t : tree cls) : loc :=
  match t with Node l _ _ _ => l end.

(** The addresses of the objects of a subtree. *)
Fixpoint addrs (t : tree cls) : list loc :=
  match t with
  | Node l _ _ kids =>
      l :: (kids ≫= λ k, match k.2 with Some t' => addrs t' | None => [] end)
  end.

Definition addrs_opt (ot : option (tree cls)) : list loc :=
  match ot with Some t => addrs t | None => [] end.

(** What the field [m] owns, given the reading of a pointee. *)
Definition read_field_with (read : loc → option (tree cls)) (m : ast_ptr cls)
    : option (cls * option (tree cls)) :=
  match m_ptr m with
  | Some a => t ← read a; Some (m_T m, Some t)
  | None => Some (m_T m, None)
  end.

(** The subtree rooted at [l], when it is at most [n] objects deep. *)
Fixpoint read_tree (n : nat) (h : gmap loc (object cls)) (l : loc) : option (tree cls) :=
  match n with
  | 0 => None
  | S n' =>
      o ← h !! l;
      kids ← mapM (read_field_with (read_tree n' h)) (o_fields o);
      Some (Node l (o_class o) (m_members o) kids)
  end.

(** What the field [m] owns, when it is at most [n] objects deep. *)
Definition read_field (n : nat) (h : gmap loc (object cls)) (m : ast_ptr cls)
    : option (cls * option (tree cls)) :=
  read_field_with (read_tree n h) m.

(** What the pointer [p] owns: nothing for the null pointer. *)
Definition read_ptr (n : nat) (h : gmap loc (object cls)) (p : ptr)
    : option (option (tree cls)) :=
  match p with
  | Some a => Some <$> read_tree n h a
  | None => Some None
  end.

(** The content of a subtree: its classes and the types of its fields,
    without the addresses and the member vectors. *)
Fixpoint shape_of (t : tree cls) : shape cls :=
  match t with
  | Node _ c _ kids =>
      Shape c (map (λ k, (k.1, match k.2 with
                               | Some t' => Some (shape_of t')
                               | None => None
                               end)) kids)
  end.

(** What the compiler-generated copy constructor of [T] makes of a subtree:
    an object of class [T] (the source may be of a derived class) holding,
    for every field [ast_ptr<Ti>] of [T], the copy at type [Ti] of what the
    field of the source at that place owns. *)
Fixpoint copy_shape (T : cls) (t : tree cls) : shape cls :=
  match t with
  | Node _ _ _ kids =>
      Shape T (zip_with (λ k Ti, (Ti, copy_shape Ti <$> k.2)) kids (fields T))
  end.

(** The source has a field for every field of [T], all the way down: the
    copy constructor reads no field that is not there. *)
Fixpoint copyable (T : cls) (t : tree cls) : bool :=
  match t with
  | Node _ _ _ kids =>
      bool_decide (length (fields T) ≤ length kids) &&
      forallb id (zip_with (λ k Ti, from_option (copyable Ti) true k.2) kids (fields T))
  end.

(** Every object of the subtree has registered exactly its own fields, in
    declaration order. *)
Fixpoint registered (t : tree cls) : Prop :=
  match t with
  | Node l _ ms kids =>
      ms = imap (λ i _, (l, i)) kids ∧
      foldr (λ k P, from_option registered True k.2 ∧ P) True kids
  end.


End trees.

(** ** Specification vocabulary *)

(** The addresses of the objects owned through a list of fields. *)
Abbreviation kid_addrs ks := (ks ≫= λ k : _ * option (tree _), addrs_opt k.2).

Section specs.

Context `{class_table cls}.
Implicit Types (s : state cls) (h : gmap loc (object cls)) (ot : option (tree cls)).

(** [h'] is [h] without the objects at [X]. *)
Definition freed (X : list loc) h h' : Prop :=
  ∀ a, h' !! a = if decide (a ∈ X) then None else h !! a.

(** While the object at [l'] is the active container, a step keeps it
    active and touches no other object. *)
Definition builds (l' : loc) (r : list loc) s s' : Prop :=
  registry s = l' :: r →
  registry s' = l' :: r ∧
  ∀ a o, a ≠ l' → heap s !! a = Some o → heap s' !! a = Some o.

(** The copy made of what a pointer owns: the registry is restored, the
    copy has the content the copy constructor of [T] gives it, each of its
    objects has registered its own fields, it is made of objects that did
    not exist, and nothing else has changed. *)
Definition copy_spec (n : nat) (T : cls) (s : state cls) (ot : option (tree cls))
    (p' : ptr) (s' : state cls) (ot' : option (tree cls)) : Prop :=
  registry s' = registry s ∧ heap s ⊆ heap s' ∧
  read_ptr n (heap s') p' = Some ot' ∧
  shape_of <$> ot' = copy_shape T <$> ot ∧
  from_option registered True ot' ∧
  NoDup (addrs_opt ot') ∧
  (∀ x, x ∈ addrs_opt ot' → heap s !! x = None) ∧
  (∀ x, x ∉ addrs_opt ot' → heap s' !! x = heap s !! x).

(** [new T( *a)] succeeds on every subtree of depth at most [n]. *)
Definition copies (n fuel : nat) : Prop :=
  ∀ T a s ta, read_tree n (heap s) a = Some ta → copyable T ta = true →
    ∃ a' s' ta', new_copy fuel T a s = Ok (a', s') ∧
      copy_spec n T s (Some ta) (Some a') s' (Some ta').

(** The node at [b] is live and its runtime type is [T] or derived from it:
    [dynamic_cast<T *>] succeeds on it. *)
Definition has_type s (b : loc) (T : cls) : Prop :=
  ∃ o, heap s !! b = Some o ∧ is_a (o_class o) T = true.



End specs.

(** ** Accessors *)

Section accessors.

Context `{class_table cls}.

(** [operator T *() const { return m_ptr; }] *)
Definition operator_T_ptr (this : maddr) (s : state cls) : outcome (exn cls) ptr :=
  m ← of_option (get_member this s);
  Ok (m_ptr m).

(** [T *operator ->() const { assert(m_ptr); return m_ptr; }] *)
Definition operator_arrow (this : maddr) (s : state cls) : outcome (exn cls) loc :=
  m ← of_option (get_member this s);
  of_option (m_ptr m).

(** [const ast_member_vector &members() const { return m_members; }] *)
Definition members (this : loc) (s : state cls) : outcome (exn cls) ast_member_vector :=
  o ← of_option (heap s !! this);
  Ok (m_members o).

End accessors.

(** ** The driver: [parse] *)

Section driver.

Context `{class_table cls} {input rule error_list : Type}.

(** The grammar engine of parser.hpp, an external collaborator: run on an
    input with a root rule, a whitespace rule, an error list and the stack
    as user data, it reports whether the root rule matched, and the error
    list, the stack and the store it leaves. *)
Variable engine :
  input → rule → rule → error_list → ast_stack → state cls →
  outcome (exn cls) (bool * error_list * ast_stack * state cls).

(** Modelled from the spec: [parse] is only declared in the header.  It runs
    the engine with an empty reconstruction stack; "on success returns
    ownership of the single remaining stack node (the parse root); on
    failure returns an absent result and the sink contains the recorded
    errors" (section 4.4).  After a match "the reconstruction stack must
    contain exactly one element": any other stack is the wiring error of
    section 7, which does not return. *)
Definition parse (i : input) (g ws : rule) (el : error_list) (s : state cls)
    : outcome (exn cls) (ptr * error_list * state cls) :=
  '(ok, el', st, s') ← engine i g ws el [] s;
  if (ok : bool) then
    match st with
    | [root] => Ok (root, el', s')
    | _ => Undefined
    end
  else Ok (None, el', s').

End driver.

(** ** A client program

    The node classes of a small expression grammar, used to run the model.
    Every class derives from [Expr]; [Num] is a leaf, [Neg] holds an
    [ast_ptr<Num>], [Add] two [ast_ptr<Expr>], [Cond] three [ast_ptr<Expr>]
    and [Wrap] an [ast_ptr<Add>]. *)
Module Client.

Inductive node_class := Expr | Num | Neg | Add | Cond | Wrap.

Definition derives (d t : node_class) : bool :=
  match d, t with
  | _, Expr => true
  | Num, Num => true
  | Neg, Neg => true
  | Add, Add => true
  | Cond, Cond => true
  | Wrap, Wrap => true
  | _, _ => false
  end.

Definition declares (t : node_class) : list node_class :=
  match t with
  | Neg => [Num]
  | Add => [Expr; Expr]
  | Cond => [Expr; Expr; Expr]
  | Wrap => [Add]
  | _ => []
  end.

#[global] Instance table : class_table node_class := ClassTable _ derives declares.

Definition leaf (c : node_class) : object node_class := Object c [] [].

(** Two numbers on their own. *)
Definition two_numbers : state node_class :=
  State (<[1 := leaf Num]> (<[0 := leaf Num]> ∅)) [].

(** Two numbers at 0 and 1 and the sum that owns them at 2. *)
Definition sum_heap : gmap loc (object node_class) :=
  <[2 := Object Add [(2, 0); (2, 1)] [AstPtr Expr (Some 0); AstPtr Expr (Some 1)]]>
    (<[1 := leaf Num]> (<[0 := leaf Num]> ∅)).

Definition sum : state node_class := State sum_heap [].

Definition sum_tree : tree node_class :=
  Node 2 Add [(2, 0); (2, 1)]
    [(Expr, Some (Node 0 Num [] [])); (Expr, Some (Node 1 Num [] []))].

(** The sum, and a third number at 3 that nothing owns yet. *)
Definition sum_and_number : state node_class :=
  State (<[3 := leaf Num]> sum_heap) [].

(** The sum owned by the wrapper at 3, and an empty wrapper at 4. *)
Definition wraps_heap : gmap loc (object node_class) :=
  <[4 := Object Wrap [(4, 0)] [AstPtr Add None]]>
    (<[3 := Object Wrap [(3, 0)] [AstPtr Add (Some 2)]]> sum_heap).

Definition wraps : state node_class := State wraps_heap [].

(** The same, while a third wrapper is under construction at 5: its base is
    built and it is the active container, its field is not built yet. *)
Definition wrap_under_construction : state node_class :=
  State (<[5 := Object Wrap [] []]> wraps_heap) [5].

(** Three numbers built for the three fields of the conditional at 3, whose
    last field still owns an older number at 4. *)
Definition cond_built : state node_class :=
  State (<[4 := leaf Num]>
           (<[3 := Object Cond [(3, 0); (3, 1); (3, 2)]
                     [AstPtr Expr None; AstPtr Expr None; AstPtr Expr (Some 4)]]>
              (<[2 := leaf Num]> (<[1 := leaf Num]> (<[0 := leaf Num]> ∅))))) [].

(** A negation at 1, whose field wants a [Num], and a sum at 0. *)
Definition mismatch : state node_class :=
  State (<[1 := Object Neg [(1, 0)] [AstPtr Num None]]> (<[0 := leaf Add]> ∅)) [].


(** A sum at 2 whose two fields hold the same number. *)
Definition shared_number : state node_class :=
  State (<[2 := Object Add [(2, 0); (2, 1)] [AstPtr Expr (Some 0); AstPtr Expr (Some 0)]]>
           (<[0 := leaf Num]> ∅)) [].

(** The wrappers, and a third wrapper at 5 that was constructed from the raw
    pointer to the sum the wrapper at 3 owns. *)
Definition aliased : state node_class :=
  State (<[5 := Object Wrap [(5, 0)] [AstPtr Add (Some 2)]]> wraps_heap) [].





(** A grammar engine for [parse]: the input tells whether the root rule
    matches and which nodes the actions leave on the stack; a failed match
    records an error. *)
Definition engine (i : bool * ast_stack) (g ws : unit) (el : list nat)
    (st : ast_stack) (s : state node_class)
    : outcome (exn node_class) (bool * list nat * ast_stack * state node_class) :=
  Ok (i.1, if i.1 then el else el ++ [0], st ++ i.2, s).

End Client.

(** Membership goals over lists. *)
Ltac sets := set_unfold; intuition (subst; eauto; congruence).

(** Closing a ground goal by evaluation. *)
Ltac decided := apply (bool_decide_unpack _); vm_compute; exact I.
Ltac typed := eexists; split; [vm_compute; reflexivity | reflexivity].

(** * Proofs *)

Section outcomes.

Lemma bind_Ok {E A B} (x : outcome E A) (f : A → outcome E B) b :
  x ≫= f = Ok b ↔ ∃ y, x = Ok y ∧ f y = Ok b.
Proof.
  destruct x; simpl; split; try (intros (? & ? & ?)); try done; eauto.
  - by simplify_eq.
Qed.

Lemma Forall2_impl_elem {A B} (P Q : A → B → Prop) (xs : list A) (ys : list B) :
  Forall2 P xs ys → (∀ x y, y ∈ ys → P x y → Q x y) → Forall2 Q xs ys.
Proof.
  induction 1 as [|x y xs ys Hxy _ IH]; intros HPQ; constructor.
  - apply HPQ; [set_solver|done].
  - apply IH. intros x' y' ?. apply HPQ. set_solver.
Qed.

Lemma foldM_cons {E A S} (f : A → S → outcome E S) x xs (s : S) :
  foldM f (x :: xs) s = f x s ≫= foldM f xs.
Proof. done. Qed.

Lemma foldM_app {E A S} (f : A → S → outcome E S) xs ys (s : S) :
  foldM f (xs ++ ys) s = foldM f xs s ≫= foldM f ys.
Proof.
  revert s. induction xs as [|x xs IH]; intros s; [done|].
  rewrite <-app_comm_cons, !foldM_cons. destruct (f x s); simpl; auto.
Qed.

Lemma foldM_invariant {E A S} (R : S → S → Prop) (f : A → S → outcome E S) xs :
  (∀ s, R s s) → (∀ s1 s2 s3, R s1 s2 → R s2 s3 → R s1 s3) →
  (∀ x s s', x ∈ xs → f x s = Ok s' → R s s') →
  ∀ s s', foldM f xs s = Ok s' → R s s'.
Proof.
  intros Hrefl Htrans. induction xs as [|x xs IH]; intros Hf s s' Hfold.
  - simpl in Hfold. by simplify_eq.
  - rewrite foldM_cons in Hfold. apply bind_Ok in Hfold as (s1 & Hx & Hxs).
    eapply Htrans; [eapply Hf; [left|done]|].
    eapply IH; [|done]. intros; eapply Hf; [by right|done].
Qed.

Lemma of_option_Ok {E A} (x : option A) (y : A) :
  of_option (E:=E) x = Ok y ↔ x = Some y.
Proof. destruct x; simpl; split; intros; by simplify_eq. Qed.

End outcomes.

Section proofs.

Context `{class_table cls}.

Implicit Types (s : state cls) (h : gmap loc (object cls)) (t : tree cls)
  (o : object cls) (m : ast_ptr cls) (p : ptr) (l a : loc)
  (k : cls * option (tree cls)) (ot : option (tree cls)).

Lemma addrs_unfold l c ms kids :
  addrs (Node l c ms kids) = l :: (kids ≫= λ k, addrs_opt k.2).
Proof. done. Qed.

Lemma root_in_addrs t : root t ∈ addrs t.
Proof. destruct t. rewrite addrs_unfold. set_solver. Qed.

Lemma read_tree_S n h l :
  read_tree (S n) h l =
    o ← h !! l; kids ← mapM (read_field n h) (o_fields o);
    Some (Node l (o_class o) (m_members o) kids).
Proof. done. Qed.

Lemma read_tree_root n h l t : read_tree n h l = Some t → root t = l.
Proof. destruct n; [done|]. rewrite read_tree_S. intros. by simplify_option_eq. Qed.

Lemma read_field_Some n h m k :
  read_field n h m = Some k ↔ k.1 = m_T m ∧ read_ptr n h (m_ptr m) = Some k.2.
Proof.
  unfold read_field, read_field_with, read_ptr. destruct k as [T ot].
  destruct (m_ptr m) as [a|]; simpl.
  - destruct (read_tree n h a); simpl; split.
    + by intros [= <- <-].
    + by intros [<- [= <-]].
    + done.
    + by intros [_ ?].
  - split.
    + by intros [= <- <-].
    + by intros [<- [= <-]].
Qed.

Lemma read_ptr_frame_of n 
  (IH : ∀ h h' l t, read_tree n h l = Some t →
     (∀ a, a ∈ addrs t → h' !! a = h !! a) → read_tree n h' l = Some t)
  h h' p ot :
  read_ptr n h p = Some ot →
  (∀ a, a ∈ addrs_opt ot → h' !! a = h !! a) → read_ptr n h' p = Some ot.
Proof.
  destruct p as [a|]; simpl; [|done].
  destruct (read_tree n h a) as [t|] eqn:Ht; simpl; [|done].
  intros ? Hfr; simplify_eq. by rewrite (IH _ _ _ _ Ht Hfr).
Qed.

Lemma read_tree_frame n h h' l t :
  read_tree n h l = Some t →
  (∀ a, a ∈ addrs t → h' !! a = h !! a) →
  read_tree n h' l = Some t.
Proof.
  revert h h' l t. induction n as [|n IH]; intros h h' l t; [done|].
  rewrite !read_tree_S. intros Ht Hfr.
  destruct (h !! l) as [o|] eqn:Hl; [|done]. simpl in Ht.
  destruct (mapM (read_field n h) (o_fields o)) as [kids|] eqn:Hkids; [|done].
  simpl in Ht. injection Ht as <-.
  rewrite Hfr, Hl; [|rewrite addrs_unfold; set_solver]. simpl.
  assert (mapM (read_field n h') (o_fields o) = Some kids) as ->; [|done].
  apply mapM_Some. apply mapM_Some in Hkids.
  assert (∀ k, k ∈ kids → ∀ a, a ∈ addrs_opt k.2 → h' !! a = h !! a) as Hk.
  { intros k Hk a Ha. apply Hfr. rewrite addrs_unfold.
    apply elem_of_cons; right. apply list_elem_of_bind. eauto. }
  clear Hfr Hl. induction Hkids as [|m k ms ks Hm _ IHl]; constructor.
  - apply read_field_Some. apply read_field_Some in Hm as [? Hm]. split; [done|].
    eapply read_ptr_frame_of; eauto. apply (Hk k). set_solver.
  - apply IHl. intros k' ? a ?. apply (Hk k'); set_solver.
Qed.

Lemma read_ptr_frame n h h' p ot :
  read_ptr n h p = Some ot →
  (∀ a, a ∈ addrs_opt ot → h' !! a = h !! a) → read_ptr n h' p = Some ot.
Proof. apply read_ptr_frame_of. intros. by eapply read_tree_frame. Qed.

(** ** Releasing an owned subtree *)

Lemma delete_fields fuel n
  (IH : ∀ p s ot, read_ptr n (heap s) p = Some ot → NoDup (addrs_opt ot) →
     ∃ s', delete_node fuel p s = Ok s' ∧ registry s' = registry s ∧
           freed (addrs_opt ot) (heap s) (heap s'))
  ms ks s :
  Forall2 (λ m k, read_field n (heap s) m = Some k) ms ks →
  NoDup (ks ≫= λ k, addrs_opt k.2) →
  ∃ s', foldM (ast_ptr_dtor (delete_node fuel)) ms s = Ok s' ∧
        registry s' = registry s ∧
        freed (ks ≫= λ k, addrs_opt k.2) (heap s) (heap s').
Proof.
  revert ks s. induction ms as [|m ms IHms]; intros ks s Hks Hnd.
  - apply Forall2_nil_inv_l in Hks as ->. exists s. split_and!; [done..|].
    intros a. by rewrite decide_False by set_solver.
  - apply Forall2_cons_inv_l in Hks as (k & ks' & Hm & Hks & ->).
    rewrite bind_cons in Hnd. apply NoDup_app in Hnd as (Hnd1 & Hdisj & Hnd2).
    apply read_field_Some in Hm as [_ Hm].
    destruct (IH _ _ _ Hm Hnd1) as (s1 & Hdel & Hreg1 & Hfr1).
    destruct (IHms ks' s1) as (s2 & Hfold & Hreg2 & Hfr2); [|done|].
    { eapply Forall2_impl_elem; [exact Hks|]. intros m' k' Hk' Hm'.
      apply read_field_Some in Hm' as [? Hm']. apply read_field_Some. split; [done|].
      eapply read_ptr_frame; [done|]. intros a Ha. rewrite Hfr1.
      rewrite decide_False; [done|]. intros Ha'. apply (Hdisj a Ha').
      apply list_elem_of_bind; eauto. }
    exists s2. split_and!; [|congruence|].
    { apply bind_Ok. exists s1. by split. }
    intros a. rewrite Hfr2, Hfr1, bind_cons.
    repeat case_decide; sets.
Qed.

Lemma delete_node_owned n fuel p s ot :
  n ≤ fuel →
  read_ptr n (heap s) p = Some ot →
  NoDup (addrs_opt ot) →
  ∃ s', delete_node fuel p s = Ok s' ∧ registry s' = registry s ∧
        freed (addrs_opt ot) (heap s) (heap s').
Proof.
  revert fuel p s ot. induction n as [|n IH]; intros fuel p s ot Hle Hrd Hnd.
  - destruct p as [a|]; [done|]. simpl in Hrd. simplify_eq.
    exists s. destruct fuel; (split_and!; [done..|]); by intros a.
  - destruct p as [l|]; unfold read_ptr in Hrd.
    2:{ simplify_eq. exists s. destruct fuel; (split_and!; [done..|]); by intros a. }
    destruct fuel as [|fuel]; [lia|].
    apply fmap_Some in Hrd as (t & Ht & ->). rewrite read_tree_S in Ht.
    destruct (heap s !! l) as [o|] eqn:Hl; [|done]. simpl in Ht.
    destruct (mapM (read_field n (heap s)) (o_fields o)) as [kids|] eqn:Hkids; [|done].
    simpl in Ht. simplify_eq. cbn [addrs_opt] in *. rewrite addrs_unfold in Hnd |- *.
    apply NoDup_cons in Hnd as [Hl' Hnd].
    apply mapM_Some, Forall2_reverse in Hkids.
    destruct (delete_fields fuel n (λ p s ot, IH fuel p s ot ltac:(lia)) _ _ s Hkids)
      as (s1 & Hfold & Hreg & Hfr).
    { by rewrite reverse_Permutation. }
    assert (∀ a, a ∈ (reverse kids ≫= λ k, addrs_opt k.2) ↔
                 a ∈ (kids ≫= λ k, addrs_opt k.2)) as Hrev.
    { intros a. by rewrite reverse_Permutation. }
    simpl. rewrite Hl. rewrite Hfold. simpl.
    rewrite Hfr, decide_False, Hl by (by rewrite Hrev).
    eexists. split_and!; [done|done|]. intros a. simpl.
    destruct (decide (a = l)) as [->|Hne].
    + rewrite lookup_delete_eq. by rewrite decide_True by sets.
    + rewrite lookup_delete_ne, Hfr by done.
      repeat case_decide; try done; sets.
Qed.

(** ** What deletion and copying leave alone *)

Lemma delete_node_frame fuel p s s' :
  delete_node fuel p s = Ok s' →
  registry s' = registry s ∧ heap s' ⊆ heap s.
Proof.
  revert p s s'. induction fuel as [|fuel IH]; intros [l|] s s' Hdel;
    simpl in Hdel; simplify_eq; try done.
  destruct (heap s !! l) as [o|] eqn:Hl; [|done].
  apply bind_Ok in Hdel as (s1 & Hfold & Hdel).
  destruct (heap s1 !! l) eqn:Hl1; [|done]. simplify_eq. simpl.
  eapply (foldM_invariant (λ s s', registry s' = registry s ∧ heap s' ⊆ heap s))
    in Hfold as [Hreg Hsub].
  - split; [done|]. etrans; [apply delete_subseteq|done].
  - done.
  - intros ??? [??] [??]. split; [congruence|by etrans].
  - intros m ?? _. apply IH.
Qed.

Lemma _init_Ok this s s' :
  _init this s = Ok s' ↔
  ∃ c r o, registry s = c :: r ∧ heap s !! c = Some o ∧
    s' = set_heap (<[c := Object (o_class o) (m_members o ++ [this]) (o_fields o)]>
                     (heap s)) s.
Proof.
  unfold _init. destruct (registry s) as [|c r].
  { split; [done|]. by intros (?&?&?&?&?&?). }
  destruct (heap s !! c) as [o|] eqn:Hc.
  - split; [intros; simplify_eq; eauto 10|].
    intros (?&?&?&?&?&?). by simplify_eq.
  - split; [done|]. intros (?&?&?&?&?&?). simplify_eq.
Qed.

Lemma emplace_member_Some l m s s' :
  emplace_member l m s = Some s' ↔
  ∃ o, heap s !! l = Some o ∧
    s' = set_heap (<[l := Object (o_class o) (m_members o) (o_fields o ++ [m])]>
                     (heap s)) s.
Proof.
  unfold emplace_member. destruct (heap s !! l) as [o|].
  - split; [intros; simplify_eq; eauto|]. intros (?&?&?). by simplify_eq.
  - split; [done|]. by intros (?&?&?).
Qed.

Lemma next_member_Some l s this :
  next_member l s = Some this ↔
  ∃ o, heap s !! l = Some o ∧ this = (l, length (o_fields o)).
Proof.
  unfold next_member. destruct (heap s !! l) as [o|].
  - split; [intros; simplify_eq; eauto|]. intros (?&?&?). by simplify_eq.
  - split; [done|]. by intros (?&?&?).
Qed.

Lemma clone_ptr_frame (copy : cls → loc → state cls → outcome (exn cls) (loc * state cls))
    T p s p' s' :
  (∀ T l s l' s', copy T l s = Ok (l', s') →
     l' = fresh (dom (heap s)) ∧ registry s' = registry s ∧ heap s ⊆ heap s') →
  clone_ptr copy T p s = Ok (p', s') →
  registry s' = registry s ∧ heap s ⊆ heap s'.
Proof.
  intros IH. destruct p as [l|]; simpl; [|by intros; simplify_eq].
  intros ((l' & s1) & Hc & ?)%bind_Ok. simplify_eq. by apply IH in Hc as (_ & ? & ?).
Qed.

Lemma ast_ptr_copy_ctor_builds copy T l' r src s s' :
  (∀ T l s l' s', copy T l s = Ok (l', s') →
     l' = fresh (dom (heap s)) ∧ registry s' = registry s ∧ heap s ⊆ heap s') →
  ast_ptr_copy_ctor copy T l' src s = Ok s' → builds l' r s s'.
Proof.
  intros IH Hc Hreg. unfold ast_ptr_copy_ctor in Hc.
  apply bind_Ok in Hc as (this & _ & Hc).
  apply bind_Ok in Hc as (s1 & Hi & Hc).
  apply bind_Ok in Hc as (msrc & _ & Hc).
  apply bind_Ok in Hc as ((p & s2) & Hcl & Hc).
  apply _init_Ok in Hi as (c & r' & o & Hreg' & Hc' & ->).
  rewrite Hreg in Hreg'. simplify_eq.
  apply clone_ptr_frame in Hcl as [Hreg2 Hsub]; [|done].
  apply of_option_Ok, emplace_member_Some in Hc as (o2 & Ho2 & ->). simpl in *.
  split; [congruence|]. intros a oa Hne Ha.
  rewrite lookup_insert_ne by done. eapply lookup_weaken; [|done].
  by rewrite lookup_insert_ne.
Qed.

Lemma new_copy_frame fuel T l s l' s' :
  new_copy fuel T l s = Ok (l', s') →
  l' = fresh (dom (heap s)) ∧ registry s' = registry s ∧ heap s ⊆ heap s'.
Proof.
  revert T l s l' s'. induction fuel as [|fuel IH]; intros T l s l' s' Hc; [done|].
  simpl in Hc. destruct (heap s !! l) as [o|] eqn:Hl; [|done].
  apply bind_Ok in Hc as (s2 & Hfold & Hc).
  apply bind_Ok in Hc as (s3 & Hpop & Hc). simplify_eq.
  set (l' := fresh (dom (heap s))) in *.
  assert (heap s !! l' = None) as Hfresh.
  { apply not_elem_of_dom. apply is_fresh. }
  eapply (foldM_invariant (builds l' (registry s))) in Hfold.
  - destruct Hfold as [Hreg Hfr]; [done|].
    unfold ast_container_constructed in Hpop. rewrite Hreg in Hpop. simplify_eq.
    split_and!; [done..|]. apply map_subseteq_spec. intros a oa Ha. simpl.
    apply Hfr; [congruence|]. simpl. rewrite lookup_insert_ne; [done|congruence].
  - by intros ??.
  - intros s1 s2' s3' H12 H23 Hr. destruct (H12 Hr) as [Hr2 H2].
    destruct (H23 Hr2) as [Hr3 H3]. split; [done|]. intros. by apply H3, H2.
  - intros [i Ti] sa sb _. by apply ast_ptr_copy_ctor_builds.
Qed.

(** ** Copying an owned subtree *)

Lemma read_tree_S_Some n h l l' c ms ks :
  read_tree (S n) h l = Some (Node l' c ms ks) ↔
  l' = l ∧ ∃ o, h !! l = Some o ∧ o_class o = c ∧ m_members o = ms ∧
    Forall2 (λ m k, read_field n h m = Some k) (o_fields o) ks.
Proof.
  rewrite read_tree_S. destruct (h !! l) as [o|]; simpl.
  2:{ split; [done|]. by intros (_ & ? & ? & _). }
  destruct (mapM (read_field n h) (o_fields o)) as [kids|] eqn:Hk; simpl.
  - apply mapM_Some in Hk. split.
    + intros ?; simplify_eq. eauto 10.
    + intros (-> & o' & ? & <- & <- & Hk'); simplify_eq.
      apply mapM_Some in Hk, Hk'. by simplify_eq.
  - split; [done|]. intros (_ & o' & ? & _ & _ & Hk'); simplify_eq.
    apply mapM_Some in Hk'. by simplify_eq.
Qed.

Lemma read_tree_dom n h l t a :
  read_tree n h l = Some t → a ∈ addrs t → is_Some (h !! a).
Proof.
  revert h l t a. induction n as [|n IH]; intros h l t a; [done|].
  destruct t as [l' c ms ks]. intros (-> & o & Hl & _ & _ & Hks)%read_tree_S_Some.
  rewrite addrs_unfold. intros [->|Ha]%elem_of_cons; [by eexists|].
  apply list_elem_of_bind in Ha as (k & Ha & Hk).
  apply list_elem_of_lookup in Hk as [i Hk].
  destruct (Forall2_lookup_r _ _ _ _ _ Hks Hk) as (m & _ & Hm).
  apply read_field_Some in Hm as [_ Hm]. destruct (m_ptr m) as [b|]; simpl in Hm.
  - apply fmap_Some in Hm as (t' & Ht' & Heq). rewrite Heq in Ha. eauto.
  - simplify_eq. rewrite <-Hm in Ha. set_solver.
Qed.

Lemma read_ptr_dom n h p ot a :
  read_ptr n h p = Some ot → a ∈ addrs_opt ot → is_Some (h !! a).
Proof.
  destruct p as [b|]; simpl.
  - intros (t & Ht & ->)%fmap_Some. by eapply read_tree_dom.
  - intros; simplify_eq. set_solver.
Qed.

Lemma read_ptr_weaken n h h' p ot :
  read_ptr n h p = Some ot → h ⊆ h' → read_ptr n h' p = Some ot.
Proof.
  intros Hrd Hsub. eapply read_ptr_frame; [done|]. intros a Ha.
  destruct (read_ptr_dom _ _ _ _ _ Hrd Ha) as [o Ho].
  rewrite Ho. by eapply lookup_weaken.
Qed.

Lemma copyable_inv T l c ms kids :
  copyable T (Node l c ms kids) = true ↔
  length (fields T) ≤ length kids ∧
  ∀ i Ti k, fields T !! i = Some Ti → kids !! i = Some k →
    from_option (copyable Ti) true k.2 = true.
Proof.
  simpl. rewrite andb_true_iff, bool_decide_eq_true, forallb_forall.
  apply and_iff_compat_l. split.
  - intros Hall i Ti k HTi Hk. apply Hall, list_elem_of_In.
    apply list_elem_of_lookup. exists i. rewrite lookup_zip_with, Hk. simpl. by rewrite HTi.
  - intros Hall b Hb%list_elem_of_In. apply list_elem_of_lookup in Hb as [i Hb].
    rewrite lookup_zip_with in Hb.
    destruct (kids !! i) as [k|] eqn:Hk; [|done]. simpl in Hb.
    destruct (fields T !! i) as [Ti|] eqn:HTi; [|done]. simpl in Hb. simplify_eq.
    by eapply Hall.
Qed.

Lemma zip_with_snoc_r {A B C} (g : A → B → C) (xs : list A) (ys : list B) x y :
  xs !! length ys = Some x →
  zip_with g xs (ys ++ [y]) = zip_with g xs ys ++ [g x y].
Proof.
  revert xs. induction ys as [|y' ys IH]; intros [|x' xs] Hx; simplify_eq/=.
  - by destruct xs.
  - f_equal. by apply IH.
Qed.

Lemma shape_of_unfold l c ms kids :
  shape_of (Node l c ms kids) = Shape c ((λ k, (k.1, shape_of <$> k.2)) <$> kids).
Proof. done. Qed.

Lemma copy_shape_unfold T l c ms kids :
  copy_shape T (Node l c ms kids) =
  Shape T (zip_with (λ k Ti, (Ti, copy_shape Ti <$> k.2)) kids (fields T)).
Proof. done. Qed.

Lemma registered_unfold l c ms kids :
  registered (Node l c ms kids) ↔
  ms = imap (λ i _, (l, i)) kids ∧ Forall (λ k, from_option registered True k.2) kids.
Proof.
  simpl. apply and_iff_compat_l. induction kids as [|k kids IH]; simpl.
  - split; [by constructor|done].
  - rewrite Forall_cons. by rewrite IH.
Qed.

Lemma clone_ptr_owned n fuel T p s ot :
  copies n fuel →
  read_ptr n (heap s) p = Some ot → from_option (copyable T) true ot = true →
  ∃ p' s' ot', clone_ptr (new_copy fuel) T p s = Ok (p', s') ∧
    copy_spec n T s ot p' s' ot'.
Proof.
  intros IH Hrd Hc. destruct p as [a|]; simpl in Hrd.
  - apply fmap_Some in Hrd as (ta & Hta & ->).
    destruct (IH T a s ta Hta Hc) as (a' & s' & ta' & Hcopy & Hspec).
    exists (Some a'), s', (Some ta'). simpl. by rewrite Hcopy.
  - simplify_eq. exists None, s, None. split; [done|].
    split_and!; try done. { constructor. } intros x. set_solver.
Qed.

Lemma ast_ptr_copy_ctor_Ok copy T l src s this s1 msrc p s2 s' :
  next_member l s = Some this →
  _init this s = Ok s1 →
  get_member src s1 = Some msrc →
  clone_ptr copy T (m_ptr msrc) s1 = Ok (p, s2) →
  emplace_member l (AstPtr T p) s2 = Some s' →
  ast_ptr_copy_ctor copy T l src s = Ok s'.
Proof.
  intros Hn Hi Hg Hc He. unfold ast_ptr_copy_ctor, ast_member_ctor.
  rewrite Hn. simpl. rewrite Hi. simpl. rewrite Hg. simpl. rewrite Hc. simpl.
  by rewrite He.
Qed.

Lemma copy_field_owned n fuel h0 l o i msrc ksrc Ti T l' r ms ks s :
  copies n fuel →
  h0 !! l = Some o → o_fields o !! i = Some msrc →
  read_field n h0 msrc = Some ksrc →
  from_option (copyable Ti) true ksrc.2 = true →
  registry s = l' :: r → h0 ⊆ heap s → h0 !! l' = None →
  read_tree (S n) (heap s) l' = Some (Node l' T ms ks) →
  NoDup (l' :: kid_addrs ks) →
  ∃ s' ot',
    ast_ptr_copy_ctor (new_copy fuel) Ti l' (l, i) s = Ok s' ∧
    registry s' = l' :: r ∧ h0 ⊆ heap s' ∧
    read_tree (S n) (heap s') l' =
      Some (Node l' T (ms ++ [(l', length ks)]) (ks ++ [(Ti, ot')])) ∧
    NoDup (l' :: kid_addrs (ks ++ [(Ti, ot')])) ∧
    (∀ x, x ∈ addrs_opt ot' → h0 !! x = None) ∧
    shape_of <$> ot' = copy_shape Ti <$> ksrc.2 ∧
    from_option registered True ot' ∧
    (∀ x, x ≠ l' → x ∉ addrs_opt ot' → heap s' !! x = heap s !! x).
Proof.
  intros IH Hl Hi Hsrc Hcopyable Hreg Hsub Hl' Htree Hnd.
  apply read_tree_S_Some in Htree as (_ & o' & Ho' & Hcls & Hms & Hks).
  assert (l ≠ l') as Hne by congruence.
  pose proof (Forall2_length _ _ _ Hks) as Hlen.
  set (o1 := Object (o_class o') (m_members o' ++ [(l', length (o_fields o'))])
               (o_fields o')).
  set (s1 := set_heap (<[l' := o1]> (heap s)) s).
  assert (h0 ⊆ heap s1) as Hsub1 by by apply insert_subseteq_r.
  apply read_field_Some in Hsrc as [HT Hsrc].
  destruct (clone_ptr_owned n fuel Ti (m_ptr msrc) s1 ksrc.2 IH) as
    (p' & s2 & ot' & Hclone & Hreg2 & Hsub2 & Hrd' & Hshape & Hregd & Hnd' & Hfresh & Hrest);
    [by eapply read_ptr_weaken|done|].
  assert (heap s2 !! l' = Some o1) as Hl2.
  { eapply lookup_weaken; [|done]. apply lookup_insert_eq. }
  set (o2 := Object (o_class o1) (m_members o1) (o_fields o1 ++ [AstPtr Ti p'])).
  exists (set_heap (<[l' := o2]> (heap s2)) s2), ot'.
  assert (∀ x, x ∈ addrs_opt ot' → x ≠ l') as Hnew_ne.
  { intros x Hx ->. apply Hfresh in Hx. simpl in Hx. by rewrite lookup_insert_eq in Hx. }
  assert (∀ x, x ∈ kid_addrs ks → x ≠ l' ∧ heap s2 !! x = heap s !! x) as Hold.
  { intros x Hx. apply NoDup_cons in Hnd as [Hnotin _].
    assert (x ≠ l') by (by intros ->). split; [done|].
    apply list_elem_of_bind in Hx as (k & Hx & Hk).
    apply list_elem_of_lookup in Hk as [j Hk].
    destruct (Forall2_lookup_r _ _ _ _ _ Hks Hk) as (m & _ & Hm).
    apply read_field_Some in Hm as [_ Hm].
    destruct (read_ptr_dom _ _ _ _ _ Hm Hx) as [ox Hox]. rewrite Hox.
    eapply lookup_weaken; [|done]. simpl. by rewrite lookup_insert_ne. }
  split_and!.
  - eapply ast_ptr_copy_ctor_Ok; [| | |exact Hclone|].
    + unfold next_member. by rewrite Ho'.
    + unfold _init. by rewrite Hreg, Ho'.
    + unfold get_member. simpl. rewrite lookup_insert_ne by done.
      by rewrite (lookup_weaken _ _ _ _ Hl Hsub).
    + unfold emplace_member. by rewrite Hl2.
  - simpl. by rewrite Hreg2.
  - simpl. apply insert_subseteq_r; [done|]. by etrans.
  - apply read_tree_S_Some. split; [done|]. exists o2. simpl.
    rewrite lookup_insert_eq. split_and!; [done|done|by rewrite Hms, Hlen|].
    apply Forall2_app.
    + eapply Forall2_impl_elem; [exact Hks|]. intros m k Hk Hm.
      apply read_field_Some in Hm as [? Hm]. apply read_field_Some. split; [done|].
      eapply read_ptr_frame; [done|]. intros x Hx.
      destruct (Hold x) as [? Heq]; [apply list_elem_of_bind; eauto|].
      by rewrite lookup_insert_ne, Heq.
    + constructor; [|constructor]. apply read_field_Some. split; [done|]. simpl.
      eapply read_ptr_frame; [done|]. intros x Hx.
      rewrite lookup_insert_ne; [done|]. intros ->. by eapply Hnew_ne.
  - rewrite bind_app, bind_cons. simpl. rewrite app_nil_r.
    apply NoDup_cons in Hnd as [Hnotin Hnd]. apply NoDup_cons. split.
    + rewrite elem_of_app. intros [?|Hx]; [done|]. by eapply Hnew_ne.
    + apply NoDup_app. split_and!; [done| |done]. intros x Hx Hx'.
      destruct (Hold x Hx) as [Hxne Heq]. apply Hfresh in Hx'.
      simpl in Hx'. rewrite lookup_insert_ne in Hx' by done.
      apply list_elem_of_bind in Hx as (k & Hx & Hk).
      apply list_elem_of_lookup in Hk as [j Hk].
      destruct (Forall2_lookup_r _ _ _ _ _ Hks Hk) as (m & _ & Hm).
      apply read_field_Some in Hm as [_ Hm].
      destruct (read_ptr_dom _ _ _ _ _ Hm Hx) as [ox Hox]. congruence.
  - intros x Hx. apply Hfresh in Hx. by eapply lookup_weaken_None.
  - done.
  - done.
  - intros x Hxne Hx. simpl. rewrite lookup_insert_ne by done.
    rewrite Hrest by done. simpl. by rewrite lookup_insert_ne.
Qed.

Lemma copy_fields_owned n fuel h0 l o ksrc T l' r s1 :
  copies n fuel →
  h0 !! l = Some o →
  Forall2 (λ m k, read_field n h0 m = Some k) (o_fields o) ksrc →
  length (fields T) ≤ length ksrc →
  (∀ i Ti k, fields T !! i = Some Ti → ksrc !! i = Some k →
     from_option (copyable Ti) true k.2 = true) →
  registry s1 = l' :: r → h0 ⊆ heap s1 → h0 !! l' = None →
  heap s1 !! l' = Some (Object T [] []) →
  ∀ Ts Ts', fields T = Ts ++ Ts' →
  ∃ s' ks,
    foldM (λ '(i, Ti), ast_ptr_copy_ctor (new_copy fuel) Ti l' (l, i))
          (imap pair Ts) s1 = Ok s' ∧
    registry s' = l' :: r ∧ h0 ⊆ heap s' ∧
    read_tree (S n) (heap s') l' =
      Some (Node l' T (imap (λ i _, (l', i)) ks) ks) ∧
    NoDup (l' :: kid_addrs ks) ∧
    (∀ x, x ∈ kid_addrs ks → h0 !! x = None) ∧
    (λ k, (k.1, shape_of <$> k.2)) <$> ks =
      zip_with (λ k Ti, (Ti, copy_shape Ti <$> k.2)) ksrc Ts ∧
    Forall (λ k, from_option registered True k.2) ks ∧
    length ks = length Ts ∧
    (∀ x, x ≠ l' → x ∉ kid_addrs ks → heap s' !! x = heap s1 !! x).
Proof.
  intros IH Hl Hsrc Hlen Hcopyable Hreg Hsub Hl' Hobj Ts.
  induction Ts as [|Ti Ts IHTs] using rev_ind; intros Ts' HTs.
  - exists s1, []. split_and!; try done.
    + apply read_tree_S_Some. split; [done|]. eexists. split; [done|].
      split_and!; done.
    + apply NoDup_singleton.
    + intros x. set_solver.
    + by destruct ksrc.
  - rewrite <-app_assoc in HTs.
    destruct (IHTs _ HTs) as
      (s2 & ks & Hfold & Hreg2 & Hsub2 & Htree & Hnd & Hfresh & Hshape & Hregd & Hlen2 &
       Hrest).
    assert (fields T !! length Ts = Some Ti) as HTi.
    { rewrite HTs. by apply list_lookup_middle. }
    destruct (lookup_lt_is_Some_2 ksrc (length Ts)) as [k Hk].
    { apply lookup_lt_Some in HTi. lia. }
    destruct (Forall2_lookup_r _ _ _ _ _ Hsrc Hk) as (msrc & Hmsrc & Hrd).
    destruct (copy_field_owned n fuel h0 l o (length Ts) msrc k Ti T l' r
                (imap (λ i _, (l', i)) ks) ks s2)
      as (s3 & ot' & Hctor & Hreg3 & Hsub3 & Htree3 & Hnd3 & Hfresh3 & Hshape3 & Hregd3 &
          Hrest3);
      eauto.
    exists s3, (ks ++ [(Ti, ot')]). split_and!; try done.
    + rewrite imap_app, foldM_app, Hfold. simpl.
      rewrite Nat.add_0_r. by destruct (ast_ptr_copy_ctor _ _ _ _ _).
    + rewrite imap_app. simpl. by rewrite Nat.add_0_r.
    + intros x. rewrite bind_app, bind_cons. simpl. rewrite app_nil_r.
      intros [?|?]%elem_of_app; eauto.
    + rewrite fmap_app, Hshape. simpl. rewrite Hshape3.
      by rewrite (zip_with_snoc_r _ _ _ k).
    + apply Forall_app. split; [done|]. by constructor.
    + rewrite !length_app. simpl. lia.
    + intros x Hne Hx. rewrite bind_app, bind_cons in Hx. simpl in Hx.
      rewrite app_nil_r in Hx. apply not_elem_of_app in Hx as [Hx1 Hx2].
      by rewrite Hrest3, Hrest.
Qed.

Lemma new_copy_owned n fuel : n ≤ fuel → copies n fuel.
Proof.
  revert fuel. induction n as [|n IH]; intros fuel Hle T a s ta Hta Hcopyable; [done|].
  destruct fuel as [|fuel]; [lia|].
  destruct ta as [l c ms ksrc].
  apply read_tree_S_Some in Hta as (-> & o & Ho & _ & _ & Hsrc).
  apply copyable_inv in Hcopyable as [Hlen Hcopyable].
  set (l' := fresh (dom (heap s))).
  assert (heap s !! l' = None) as Hfresh.
  { apply not_elem_of_dom. apply is_fresh. }
  set (s1 := ast_container_copy_ctor l' a (alloc l' T s)).
  destruct (copy_fields_owned n fuel (heap s) a o ksrc T l' (registry s) s1)
    with (Ts := fields T) (Ts' := @nil cls)
    as (s2 & ks & Hfold & Hreg & Hsub & Htree & Hnd & Hfr & Hshape & Hregd & Hlen' &
        Hrest);
    try done.
  { apply IH. lia. }
  { simpl. by apply insert_subseteq. }
  { simpl. apply lookup_insert_eq. }
  { by rewrite app_nil_r. }
  exists l', (set_registry (registry s) s2), (Node l' T (imap (λ i _, (l', i)) ks) ks).
  split.
  - simpl. rewrite Ho. fold l' s1. rewrite Hfold. simpl.
    unfold ast_container_constructed. by rewrite Hreg.
  - split_and!; try done.
    + unfold read_ptr, set_registry. cbn [heap]. by rewrite Htree.
    + cbn [fmap option_fmap option_map]. f_equal.
      rewrite shape_of_unfold, copy_shape_unfold. by f_equal.
    + simpl from_option. by apply registered_unfold.
    + intros x. cbn [addrs_opt]. rewrite addrs_unfold.
      intros [->|?]%elem_of_cons; eauto.
    + intros x. cbn [addrs_opt]. rewrite addrs_unfold.
      intros [Hne Hx]%not_elem_of_cons. cbn [heap set_registry].
      rewrite Hrest by done. simpl. by rewrite lookup_insert_ne.
Qed.

(** ** Reconstruction from the stack *)

Lemma get_member_Some this s m :
  get_member this s = Some m ↔
  ∃ o, heap s !! this.1 = Some o ∧ o_fields o !! this.2 = Some m.
Proof.
  unfold get_member. destruct (heap s !! this.1) as [o|].
  - split; [eauto|]. intros (? & ? & ?). by simplify_eq.
  - split; [done|]. by intros (? & ? & ?).
Qed.

Lemma ast_ptr_construct_owned n fuel this m st top o ot s :
  n ≤ fuel →
  get_member this s = Some m →
  heap s !! top = Some o → is_a (o_class o) (m_T m) = true →
  read_ptr n (heap s) (m_ptr m) = Some ot →
  NoDup (addrs_opt ot) → this.1 ∉ addrs_opt ot →
  ∃ s' oc,
    ast_ptr_construct fuel this (st ++ [Some top]) s = Ok (st, s') ∧
    registry s' = registry s ∧
    heap s !! this.1 = Some oc ∧
    heap s' !! this.1 =
      Some (Object (o_class oc) (m_members oc)
              (<[this.2 := AstPtr (m_T m) (Some top)]> (o_fields oc))) ∧
    ∀ a, a ≠ this.1 →
      heap s' !! a = if decide (a ∈ addrs_opt ot) then None else heap s !! a.
Proof.
  intros Hle Hm Htop Hisa Hrd Hnd Hnotin.
  destruct (delete_node_owned n fuel _ _ _ Hle Hrd Hnd) as (s1 & Hdel & Hreg & Hfr).
  pose proof Hm as (oc & Hoc & Hfield)%get_member_Some.
  assert (heap s1 !! this.1 = Some oc) as Hoc1.
  { by rewrite Hfr, decide_False. }
  exists (set_heap (<[this.1 := Object (o_class oc) (m_members oc)
                             (<[this.2 := AstPtr (m_T m) (Some top)]> (o_fields oc))]>
                     (heap s1)) s1), oc.
  split_and!; [|done| | |].
  - unfold ast_ptr_construct. rewrite Hm. simpl. rewrite last_snoc. simpl.
    rewrite Htop. simpl. rewrite Hisa. rewrite Hdel. simpl.
    unfold set_m_ptr. rewrite Hoc1, Hfield. simpl. by rewrite removelast_last.
  - done.
  - simpl. by rewrite lookup_insert_eq.
  - intros a Hne. simpl. by rewrite lookup_insert_ne.
Qed.

Lemma construct_fields n fuel l c ms ks :
  ∀ fs tops fs2 st s,
  n ≤ fuel →
  heap s !! l = Some (Object c ms (fs ++ fs2)) →
  Forall2 (λ m k, read_field n (heap s) m = Some k) fs ks →
  NoDup (l :: kid_addrs ks) →
  Forall2 (λ top k, ∃ o, heap s !! top = Some o ∧ is_a (o_class o) k.1 = true) tops ks →
  Forall (λ top, top ∉ l :: kid_addrs ks) tops →
  ∃ s',
    foldM (λ member '(st, s), ast_ptr_construct fuel member st s)
          (reverse (imap (λ i _, (l, i)) ks)) (st ++ (Some <$> tops), s) = Ok (st, s') ∧
    registry s' = registry s ∧
    heap s' !! l =
      Some (Object c ms (zip_with (λ k top, AstPtr k.1 (Some top)) ks tops ++ fs2)) ∧
    ∀ a, a ≠ l →
      heap s' !! a = if decide (a ∈ kid_addrs ks) then None else heap s !! a.
Proof.
  induction ks as [|k ks IH] using rev_ind;
    intros fs tops fs2 st s Hle Hl Hfs Hnd Htops Hout.
  - apply Forall2_nil_inv_r in Hfs as ->. apply Forall2_nil_inv_r in Htops as ->.
    exists s. simpl. rewrite app_nil_r. by split_and!.
  - apply Forall2_app_inv_r in Hfs as (fs' & fm & Hfs & Hm & ->).
    apply Forall2_app_inv_r in Htops as (tops' & tl & Htops & Htop & ->).
    apply Forall2_cons_inv_r in Hm as (m & ? & Hm & ->%Forall2_nil_inv_r & ->).
    apply Forall2_cons_inv_r in Htop as (top & ? & Htop & ->%Forall2_nil_inv_r & ->).
    destruct Htop as (otop & Hotop & Hisa).
    apply read_field_Some in Hm as [HT Hm].
    rewrite bind_app, bind_cons in Hnd, Hout. simpl in Hnd, Hout.
    rewrite app_nil_r in Hnd, Hout.
    apply NoDup_cons in Hnd as [Hlnot Hnd].
    apply NoDup_app in Hnd as (Hnd1 & Hdisj & Hndk).
    apply Forall_app in Hout as [Hout Houttop].
    apply Forall_singleton in Houttop.
    pose proof (Forall2_length _ _ _ Hfs) as Hlen.
    destruct (ast_ptr_construct_owned n fuel (l, length ks) m
                (st ++ (Some <$> tops')) top otop k.2 s)
      as (s1 & oc & Hctor & Hreg1 & Hoc & Hl1 & Hfr1); try done.
    { apply get_member_Some. eexists. split; [done|]. simpl.
      rewrite <-Hlen, <-app_assoc. by apply list_lookup_middle. }
    { by rewrite HT in Hisa. }
    { simpl. set_solver. }
    simpl in Hoc, Hl1, Hfr1. rewrite Hl in Hoc. simplify_eq. simpl in Hl1.
    assert (<[length ks := AstPtr (m_T m) (Some top)]> ((fs' ++ [m]) ++ fs2) =
            fs' ++ AstPtr (m_T m) (Some top) :: fs2) as Hins.
    { rewrite <-app_assoc, insert_app_r_alt by lia. by rewrite Hlen, Nat.sub_diag. }
    rewrite Hins in Hl1.
    pose proof (Forall2_length _ _ _ Htops) as Hlent.
    destruct (IH fs' tops' (AstPtr (m_T m) (Some top) :: fs2) st s1)
      as (s2 & Hfold & Hreg2 & Hl2 & Hfr2); try done.
    { eapply Forall2_impl_elem; [exact Hfs|]. intros m' k' Hk' Hm'.
      apply read_field_Some in Hm' as [? Hm']. apply read_field_Some. split; [done|].
      eapply read_ptr_frame; [done|]. intros x Hx.
      assert (x ∈ kid_addrs ks) as Hx' by (apply list_elem_of_bind; eauto).
      rewrite Hfr1; [|sets]. rewrite decide_False; [done|]. by apply Hdisj. }
    { apply NoDup_cons. sets. }
    { rewrite Forall_forall in Hout.
      apply Forall2_same_length_lookup_2; [done|].
      intros j top' k' Htop' Hk'.
      destruct (Forall2_lookup_lr _ _ _ _ _ _ Htops Htop' Hk') as (o' & Ho' & ?).
      exists o'. split; [|done].
      pose proof (Hout top' (list_elem_of_lookup_2 _ _ _ Htop')) as Hnot.
      rewrite Hfr1 by set_solver. rewrite decide_False; [done|]. set_solver. }
    { eapply Forall_impl; [exact Hout|]. simpl. sets. }
    exists s2. split_and!.
    + rewrite imap_app, reverse_app. simpl. rewrite Nat.add_0_r.
      rewrite fmap_app, app_assoc. simpl.
      change (reverse [(l, length ks)]) with [(l, length ks)].
      apply bind_Ok. eexists. split; [exact Hctor|exact Hfold].
    + congruence.
    + rewrite Hl2. do 2 f_equal.
      rewrite zip_with_app by lia. simpl. rewrite <-app_assoc. simpl. by rewrite HT.
    + intros a Hne. rewrite Hfr2, Hfr1 by done. rewrite bind_app, bind_cons.
      simpl. rewrite app_nil_r. repeat case_decide; sets.
Qed.

Lemma ast_container_construct_owned n fuel l c ks tops st s :
  n ≤ fuel →
  read_tree (S n) (heap s) l = Some (Node l c (imap (λ i _, (l, i)) ks) ks) →
  NoDup (l :: kid_addrs ks) →
  Forall2 (λ top k, has_type s top k.1) tops ks →
  Forall (λ top, top ∉ l :: kid_addrs ks) tops →
  ∃ s',
    ast_container_construct fuel l (st ++ (Some <$> tops)) s = Ok (st, s') ∧
    registry s' = registry s ∧
    heap s' !! l =
      Some (Object c (imap (λ i _, (l, i)) ks)
              (zip_with (λ k top, AstPtr k.1 (Some top)) ks tops)) ∧
    ∀ a, a ≠ l →
      heap s' !! a = if decide (a ∈ kid_addrs ks) then None else heap s !! a.
Proof.
  intros Hle (_ & o & Hl & Hc & Hms & Hks)%read_tree_S_Some Hnd Htops Hout.
  destruct o as [c' ms fs]. simpl in *. subst c' ms.
  destruct (construct_fields n fuel l c (imap (λ i _, (l, i)) ks) ks fs tops [] st s)
    as (s' & Hfold & Hreg & Hl' & Hfr); try done.
  { by rewrite app_nil_r. }
  exists s'. rewrite app_nil_r in Hl'. split_and!; try done.
  unfold ast_container_construct. rewrite Hl. exact Hfold.
Qed.

(** ** Default construction *)

Lemma ast_ptr_ctor_active T l obj r h c ms fs :
  ast_ptr_ctor T l obj (State (<[l := Object c ms fs]> h) (l :: r)) =
  Ok (State (<[l := Object c (ms ++ [(l, length fs)]) (fs ++ [AstPtr T obj])]> h)
            (l :: r)).
Proof.
  unfold ast_ptr_ctor, next_member, ast_member_ctor, _init, emplace_member.
  cbn [heap registry]. repeat (rewrite lookup_insert_eq; cbn).
  unfold set_heap. cbn. by rewrite !insert_insert_eq.
Qed.

Lemma new_default_fields T l r h Ts :
  foldM (λ Ti, ast_ptr_ctor Ti l None) Ts
        (State (<[l := Object T [] []]> h) (l :: r)) =
  Ok (State (<[l := Object T (imap (λ i _, (l, i)) Ts) ((λ Ti, AstPtr Ti None) <$> Ts)]> h)
            (l :: r)).
Proof.
  induction Ts as [|Ti Ts IH] using rev_ind; [done|].
  rewrite foldM_app, IH. cbn [mbind outcome_bind bind foldM].
  rewrite ast_ptr_ctor_active. cbn [mbind outcome_bind bind].
  rewrite length_fmap, imap_app, fmap_app. simpl. by rewrite Nat.add_0_r.
Qed.

Lemma new_default_Ok T s :
  let l := fresh (dom (heap s)) in
  new_default T s =
  Ok (l, set_heap (<[l := Object T (imap (λ i _, (l, i)) (fields T))
                            ((λ Ti, AstPtr Ti None) <$> fields T)]> (heap s)) s).
Proof.
  intros l. unfold new_default. fold l.
  change (ast_container_ctor l (alloc l T s))
    with (State (<[l := Object T [] []]> (heap s)) (l :: registry s)).
  rewrite new_default_fields. simpl. by destruct s.
Qed.

(** ** The action binder and the container *)

Lemma null_fields_no_addrs (Ts : list cls) :
  kid_addrs ((λ Ti, (Ti, @None (tree cls))) <$> Ts) = [].
Proof. induction Ts as [|Ti Ts IH]; [done|]. rewrite fmap_cons, bind_cons. by rewrite IH. Qed.

(** C4.  One run of the action binder's callback for a node type [T] with
    [N] pointer fields, on a stack whose top [N] nodes are type-compatible
    with those fields: a new instance is built, its [construct] claims the
    [N] nodes, and the instance is pushed.  The stack ends with size (size
    before) - [N] + 1 and the new instance on top; the instance is a fresh
    object holding the claimed nodes in field order, and nothing else in
    the store changes.  No fuel is needed: the fresh fields own nothing. *)
Theorem parse_proc_stack_discipline fuel T st tops s :
  Forall2 (has_type s) tops (fields T) →
  ∃ obj s',
    _parse_proc fuel T (st ++ (Some <$> tops)) s = Ok (st ++ [Some obj], s') ∧
    heap s !! obj = None ∧
    registry s' = registry s ∧
    heap s' = <[obj := Object T (imap (λ i _, (obj, i)) (fields T))
                         (zip_with (λ Ti top, AstPtr Ti (Some top)) (fields T) tops)]>
                (heap s) ∧
    length (st ++ [Some obj]) =
      length (st ++ (Some <$> tops)) - length (fields T) + 1 ∧
    last (st ++ [Some obj]) = Some (Some obj).
Proof.
  intros Htops.
  set (l := fresh (dom (heap s))).
  assert (heap s !! l = None) as Hfresh.
  { apply not_elem_of_dom. apply is_fresh. }
  set (ks := (λ Ti, (Ti, @None (tree cls))) <$> fields T).
  set (s1 := set_heap (<[l := Object T (imap (λ i _, (l, i)) (fields T))
                                ((λ Ti, AstPtr Ti None) <$> fields T)]> (heap s)) s).
  assert (imap (λ i (_ : cls * option (tree cls)), (l, i)) ks =
          imap (λ i _, (l, i)) (fields T)) as Hms.
  { unfold ks. by rewrite imap_fmap. }
  destruct (ast_container_construct_owned 0 fuel l T ks tops st s1)
    as (s2 & Hcons & Hreg & Hl & Hfr).
  - lia.
  - apply read_tree_S_Some. split; [done|]. eexists. simpl.
    rewrite lookup_insert_eq. split; [done|]. simpl. split_and!; [done|done|].
    unfold ks. apply Forall2_fmap. by apply Forall_Forall2_diag, Forall_forall.
  - unfold ks. rewrite null_fields_no_addrs. apply NoDup_singleton.
  - unfold ks. apply Forall2_fmap_r. eapply Forall2_impl; [exact Htops|].
    intros top Ti (o & Ho & Hisa). exists o. split; [|done]. simpl.
    rewrite lookup_insert_ne; [done|]. congruence.
  - unfold ks. rewrite null_fields_no_addrs.
    apply Forall_forall. intros top Htop.
    apply list_elem_of_lookup in Htop as [i Hi].
    destruct (Forall2_lookup_l _ _ _ _ _ Htops Hi) as (Ti & _ & o & Ho & _).
    intros ->%list_elem_of_singleton. congruence.
  - exists l, s2. split_and!.
    + unfold _parse_proc. rewrite new_default_Ok. fold l s1.
      cbn [mbind outcome_bind bind]. by rewrite Hcons.
    + done.
    + done.
    + apply map_eq. intros a. destruct (decide (a = l)) as [->|Hne].
      * rewrite Hl, lookup_insert_eq, Hms. do 2 f_equal.
        unfold ks. by rewrite zip_with_fmap_l.
      * rewrite Hfr by done. unfold ks. rewrite null_fields_no_addrs.
        rewrite decide_False by set_solver. simpl.
        by rewrite !lookup_insert_ne.
    + rewrite !length_app, length_fmap. simpl.
      rewrite (Forall2_length _ _ _ Htops). lia.
    + apply last_snoc.
Qed.

(** C9.  [construct] on a container without members does nothing: whatever
    the stack holds, the stack and the store are returned as they were, so
    the node acquires no child. *)
Theorem construct_without_members fuel this o st s :
  heap s !! this = Some o → m_members o = [] →
  ast_container_construct fuel this st s = Ok (st, s).
Proof.
  intros Ho Hms. unfold ast_container_construct. rewrite Ho. simpl. by rewrite Hms.
Qed.

(** C1.  Order of reconstruction.  A container whose members are its three
    fields [A], [B], [C] in registration order (owning [oA], [oB], [oC],
    possibly nothing), on a stack that ends, bottom to top, with [bA], [bB],
    [bC], nodes of the types of the fields that the container does not own:
    [construct] returns with the three nodes popped, field [A] owning [bA],
    field [B] owning [bB] and field [C] owning [bC], the three nodes being
    still alive. *)
Theorem construct_pairs_fields_in_order n fuel l c TA TB TC oA oB oC bA bB bC st s :
  let t := Node l c [(l, 0); (l, 1); (l, 2)] [(TA, oA); (TB, oB); (TC, oC)] in
  n ≤ fuel →
  read_tree (S n) (heap s) l = Some t →
  NoDup (addrs t) →
  has_type s bA TA → has_type s bB TB → has_type s bC TC →
  bA ∉ addrs t → bB ∉ addrs t → bC ∉ addrs t →
  ∃ s',
    ast_container_construct fuel l (st ++ [Some bA; Some bB; Some bC]) s = Ok (st, s') ∧
    get_member (l, 0) s' = Some (AstPtr TA (Some bA)) ∧
    get_member (l, 1) s' = Some (AstPtr TB (Some bB)) ∧
    get_member (l, 2) s' = Some (AstPtr TC (Some bC)) ∧
    heap s' !! bA = heap s !! bA ∧ heap s' !! bB = heap s !! bB ∧
    heap s' !! bC = heap s !! bC.
Proof.
  intros t Hle Ht Hnd HA HB HC HbA HbB HbC. unfold t in *. rewrite addrs_unfold in *.
  destruct (ast_container_construct_owned n fuel l c [(TA, oA); (TB, oB); (TC, oC)]
              [bA; bB; bC] st s) as (s' & Hcons & _ & Hl & Hfr); try done.
  { by repeat constructor. }
  { by repeat constructor. }
  exists s'. unfold get_member. simpl. rewrite Hl. simpl. split_and!; try done.
  all: rewrite Hfr; [rewrite decide_False; [done|]|];
    rewrite not_elem_of_cons in HbA, HbB, HbC; tauto.
Qed.

(** C3.  [ast_ptr<T>::construct] on a stack whose top node is of type [T] or
    derived: exactly the top element is removed (the rest of the stack is
    returned, one element shorter), the member points to that node, the
    subtree the member owned before is deleted, and no other object
    changes. *)
Theorem construct_claims_the_top n fuel this m st top ot s :
  n ≤ fuel →
  get_member this s = Some m →
  has_type s top (m_T m) →
  read_ptr n (heap s) (m_ptr m) = Some ot →
  NoDup (addrs_opt ot) → this.1 ∉ addrs_opt ot →
  ∃ s',
    ast_ptr_construct fuel this (st ++ [Some top]) s = Ok (st, s') ∧
    length st = length (st ++ [Some top]) - 1 ∧
    get_member this s' = Some (AstPtr (m_T m) (Some top)) ∧
    (∀ a, a ∈ addrs_opt ot → heap s' !! a = None) ∧
    (∀ a, a ∉ addrs_opt ot → a ≠ this.1 → heap s' !! a = heap s !! a) ∧
    registry s' = registry s.
Proof.
  intros Hle Hm (o & Htop & Hisa) Hrd Hnd Hnotin.
  destruct (ast_ptr_construct_owned n fuel this m st top o ot s)
    as (s' & oc & Hcons & Hreg & Hoc & Hl & Hfr); try done.
  apply get_member_Some in Hm as (oc' & Hoc' & Hfield). simplify_eq.
  exists s'. split_and!; try done.
  - rewrite length_app. simpl. lia.
  - apply get_member_Some. eexists. split; [done|]. simpl.
    apply list_lookup_insert_eq. by eapply lookup_lt_Some.
  - intros a Ha. rewrite Hfr by (by intros ->). by rewrite decide_True.
  - intros a Ha Hne. rewrite Hfr by done. by rewrite decide_False.
Qed.

(** C2, as amended.  [ast_ptr<T>::construct] on a stack whose top node is not
    of type [T] nor derived from it throws [std::logic_error] before anything
    is popped: the stack in flight still ends with the incompatible node,
    and the store is untouched. *)
Theorem construct_type_error_keeps_stack fuel this m st top o s :
  get_member this s = Some m →
  heap s !! top = Some o → is_a (o_class o) (m_T m) = false →
  ast_ptr_construct fuel this (st ++ [Some top]) s =
  Throw (Exn invalid_AST_node (st ++ [Some top]) s).
Proof.
  intros Hm Htop Hisa. unfold ast_ptr_construct. rewrite Hm. simpl.
  rewrite last_snoc. simpl. rewrite Htop. simpl. by rewrite Hisa.
Qed.

(** ** Ownership and copies *)





(** C10.  Self-assignment.  For a member that owns a subtree, both [p = p]
    and [p = p.get()] first delete the owned object; the member still holds
    its address, which the copy then dereferences: the behaviour is
    undefined, and the value owned before is gone in any case. *)
Theorem self_assignment_uses_deleted_object n fuel this m a t s :
  n ≤ fuel →
  get_member this s = Some m → m_ptr m = Some a →
  read_tree n (heap s) a = Some t → NoDup (addrs t) → this.1 ∉ addrs t →
  (∃ s1, delete_node fuel (m_ptr m) s = Ok s1 ∧ heap s1 !! a = None ∧
         get_member this s1 = Some m) ∧
  ast_ptr_assign fuel this this s = Undefined ∧
  (∀ obj, get this s = Ok obj → ast_ptr_assign_raw fuel this obj s = Undefined).
Proof.
  intros Hle Hm Ha Ht Hnd Hnotin.
  destruct (delete_node_owned n fuel (m_ptr m) s (Some t)) as (s1 & Hdel & _ & Hfr);
    [done|by rewrite Ha; simpl; rewrite Ht|done|].
  assert (heap s1 !! a = None) as Ha1.
  { rewrite Hfr, decide_True; [done|]. simpl.
    rewrite <-(read_tree_root _ _ _ _ Ht). apply root_in_addrs. }
  assert (get_member this s1 = Some m) as Hm1.
  { unfold get_member in *. by rewrite Hfr, decide_False. }
  assert (∀ T, new_copy fuel T a s1 = Undefined) as Hcopy.
  { intros T. destruct fuel as [|fuel]; [by destruct n; [|lia]|]. simpl. by rewrite Ha1. }
  split; [by exists s1|]. split.
  - unfold ast_ptr_assign. rewrite Hm. simpl. rewrite Hdel. simpl. rewrite Hm1. simpl.
    rewrite Ha. simpl. by rewrite Hcopy.
  - intros obj. unfold get. rewrite Hm. simpl. intros [= <-].
    unfold ast_ptr_assign_raw. rewrite Hm. simpl. rewrite Hdel. simpl.
    rewrite Ha. simpl. by rewrite Hcopy.
Qed.














(** ** Registration *)

Lemma assignment_keeps_members n fuel this m old p s s1 s' :
  n ≤ fuel →
  get_member this s = Some m →
  read_ptr n (heap s) (m_ptr m) = Some old →
  NoDup (addrs_opt old) →
  delete_node fuel (m_ptr m) s = Ok s1 →
  (clone_ptr (new_copy fuel) (m_T m) p s1 ≫=
     λ '(p, s2), of_option (set_m_ptr this p s2)) = Ok s' →
  ∀ c o, heap s !! c = Some o → c ∉ addrs_opt old →
    ∃ o', heap s' !! c = Some o' ∧ m_members o' = m_members o.
Proof.
  intros Hle Hm Hold Hnd Hdel Hrun c o Hc Hcnot.
  destruct (delete_node_owned n fuel _ _ _ Hle Hold Hnd) as (s1' & Hdel' & _ & Hfr).
  rewrite Hdel in Hdel'. simplify_eq.
  apply bind_Ok in Hrun as ((p' & s2) & Hclone & Hset).
  apply clone_ptr_frame in Hclone as [_ Hsub]; [|apply new_copy_frame].
  assert (heap s2 !! c = Some o) as Hc2.
  { eapply lookup_weaken; [|done]. by rewrite Hfr, decide_False. }
  apply of_option_Ok in Hset. unfold set_m_ptr in Hset.
  destruct (heap s2 !! this.1) as [oc|] eqn:Hoc; [|done].
  destruct (o_fields oc !! this.2) as [m'|]; [|done]. simplify_eq. simpl.
  destruct (decide (c = this.1)) as [->|Hne].
  - rewrite lookup_insert_eq. eexists. split; [done|]. simpl. congruence.
  - rewrite lookup_insert_ne by done. eauto.
Qed.

(** C7.  Assignment never registers.  The assignment operators of
    [ast_member] and of [ast_container] leave the store as it is; the two
    assignment operators of [ast_ptr<T>], when they return, leave the member
    vector of every container that was not deleted with the old value, the
    target's own container among them, as it was.  The two constructors of
    [ast_member], by contrast, append the member to the active container. *)
Theorem assignment_never_registers n fuel this src obj m old s :
  (ast_member_assign this src s = Ok s ∧
   ∀ c c', ast_container_assign c c' s = Ok s) ∧
  (n ≤ fuel →
   get_member this s = Some m →
   read_ptr n (heap s) (m_ptr m) = Some old →
   NoDup (addrs_opt old) →
   ∀ s', ast_ptr_assign fuel this src s = Ok s' ∨
         ast_ptr_assign_raw fuel this obj s = Ok s' →
   ∀ c o, heap s !! c = Some o → c ∉ addrs_opt old →
     ∃ o', heap s' !! c = Some o' ∧ m_members o' = m_members o) ∧
  (∀ c r oc, registry s = c :: r → heap s !! c = Some oc →
     ∃ s', ast_member_ctor this s = Ok s' ∧
           ast_member_copy_ctor this src s = Ok s' ∧
           heap s' !! c =
             Some (Object (o_class oc) (m_members oc ++ [this]) (o_fields oc))).
Proof.
  split_and!; try done.
  - intros Hle Hm Hold Hnd s' Hrun.
    assert (∃ s1 p, delete_node fuel (m_ptr m) s = Ok s1 ∧
              (clone_ptr (new_copy fuel) (m_T m) p s1 ≫=
                 λ '(p, s2), of_option (set_m_ptr this p s2)) = Ok s')
      as (s1 & p & Hdel & Hrest).
    { destruct Hrun as [Hrun|Hrun].
      - unfold ast_ptr_assign in Hrun. rewrite Hm in Hrun. simpl in Hrun.
        apply bind_Ok in Hrun as (s1 & Hdel & Hrun).
        apply bind_Ok in Hrun as (msrc & _ & Hrun). eauto.
      - unfold ast_ptr_assign_raw in Hrun. rewrite Hm in Hrun. simpl in Hrun.
        apply bind_Ok in Hrun as (s1 & Hdel & Hrun). eauto. }
    by eapply assignment_keeps_members.
  - intros c r oc Hreg Hc. unfold ast_member_ctor, ast_member_copy_ctor, _init.
    rewrite Hreg, Hc. eexists. split_and!; try done. simpl. by rewrite lookup_insert_eq.
Qed.

(** C6.  The registry is a stack of the containers under construction.  A
    container constructor, default or copy, pushes the container; a member
    built meanwhile is appended to the member vector of the head of the
    registry and of no other object; finishing the construction pops the
    head.  Nested: when a second container is constructed while the first
    is under construction, the member built inside the inner window goes to
    the inner container, the members built before and after it go to the
    outer one, and the registry ends as it started.  So [new T] yields an
    object that registered exactly its own fields, in order, with the
    registry as before; and [new T( *a)], which builds a further container
    for every non-null field while the first is still under construction,
    yields the whole copy, in which every object registered exactly its own
    fields in order: the copy is made of objects that did not exist, every
    other object, the containers under construction among them, is as it
    was, and the registry is as before. *)
Theorem registry_is_a_stack_of_active_containers n fuel s :
  (∀ l src, registry (ast_container_ctor l s) = l :: registry s ∧
            registry (ast_container_copy_ctor l src s) = l :: registry s) ∧
  (∀ this c r oc, registry s = c :: r → heap s !! c = Some oc →
     ast_member_ctor this s =
       Ok (set_heap (<[c := Object (o_class oc) (m_members oc ++ [this]) (o_fields oc)]>
                       (heap s)) s)) ∧
  (∀ c r, registry s = c :: r →
     ast_container_constructed c s = Ok (set_registry r s)) ∧
  (∀ l1 l2 o1 o2 (f1 f2 f3 : maddr),
     l1 ≠ l2 → heap s !! l1 = Some o1 → heap s !! l2 = Some o2 →
     ∃ s',
       (s1 ← ast_member_ctor f1 (ast_container_ctor l1 s);
        s2 ← ast_member_copy_ctor f2 f1 (ast_container_copy_ctor l2 l1 s1);
        s3 ← ast_container_constructed l2 s2;
        s4 ← ast_member_ctor f3 s3;
        ast_container_constructed l1 s4) = Ok s' ∧
       registry s' = registry s ∧
       heap s' !! l1 =
         Some (Object (o_class o1) (m_members o1 ++ [f1; f3]) (o_fields o1)) ∧
       heap s' !! l2 = Some (Object (o_class o2) (m_members o2 ++ [f2]) (o_fields o2)) ∧
       ∀ x, x ≠ l1 → x ≠ l2 → heap s' !! x = heap s !! x) ∧
  (∀ T, let l := fresh (dom (heap s)) in
     new_default T s =
       Ok (l, set_heap (<[l := Object T (imap (λ i _, (l, i)) (fields T))
                                 ((λ Ti, AstPtr Ti None) <$> fields T)]> (heap s)) s)) ∧
  (n ≤ fuel →
   ∀ T a ta, read_tree n (heap s) a = Some ta → copyable T ta = true →
     ∃ a' s' ta',
       new_copy fuel T a s = Ok (a', s') ∧
       registry s' = registry s ∧
       read_tree n (heap s') a' = Some ta' ∧
       shape_of ta' = copy_shape T ta ∧
       registered ta' ∧
       NoDup (addrs ta') ∧
       (∀ x, x ∈ addrs ta' → heap s !! x = None) ∧
       (∀ x, x ∉ addrs ta' → heap s' !! x = heap s !! x)).
Proof.
  split_and!.
  - done.
  - intros this c r oc Hreg Hc. unfold ast_member_ctor, _init. by rewrite Hreg, Hc.
  - intros c r Hreg. unfold ast_container_constructed. by rewrite Hreg.
  - intros l1 l2 o1 o2 f1 f2 f3 Hne Hl1 Hl2.
    unfold ast_member_ctor, ast_member_copy_ctor, _init. simpl. rewrite Hl1. simpl.
    rewrite lookup_insert_ne by done. rewrite Hl2. simpl.
    rewrite lookup_insert_ne, lookup_insert_eq by done. simpl.
    eexists. split; [done|]. simpl. split_and!.
    + done.
    + rewrite lookup_insert_eq, <-app_assoc. done.
    + by rewrite lookup_insert_ne, lookup_insert_eq.
    + intros x Hx1 Hx2. by rewrite !lookup_insert_ne.
  - intros T. apply new_default_Ok.
  - intros Hle T a ta Hta Hcopyable.
    destruct (new_copy_owned n fuel Hle T a s ta Hta Hcopyable)
      as (a' & s' & ta' & Hcopy & Hreg & _ & Hrd & Hshape & Hregd & Hnd & Hfresh & Hrest).
    exists a', s', ta'. split_and!; try done.
    + simpl in Hrd. by apply fmap_Some in Hrd as (? & ? & [= <-]).
    + by injection Hshape.
Qed.

End proofs.

Section driver_proofs.

Context `{class_table cls} {input rule error_list : Type}.
Variable engine :
  input → rule → rule → error_list → ast_stack → state cls →
  outcome (exn cls) (bool * error_list * ast_stack * state cls).

(** C8.  The driver.  When the engine reports a match and leaves exactly one
    node on the stack, [parse] returns that node; when the engine reports a
    failure, [parse] returns the null pointer together with the errors the
    engine recorded; and whenever [parse] returns after a match, the stack
    held exactly one element, the one returned. *)
Theorem parse_returns_the_single_root i g ws el s :
  (∀ el' root s',
     engine i g ws el [] s = Ok (true, el', [root], s') →
     parse engine i g ws el s = Ok (root, el', s')) ∧
  (∀ el' st s',
     engine i g ws el [] s = Ok (false, el', st, s') →
     parse engine i g ws el s = Ok (None, el', s')) ∧
  (∀ el' st s' r,
     engine i g ws el [] s = Ok (true, el', st, s') →
     parse engine i g ws el s = Ok r →
     st = [r.1.1] ∧ length st = 1 ∧ r.1.2 = el').
Proof.
  unfold parse. split_and!.
  - by intros el' root s' ->.
  - by intros el' st s' ->.
  - intros el' st s' r ->. simpl. destruct st as [|root [|??]]; try done.
    by intros [= <-].
Qed.

End driver_proofs.

(** * Further properties of the code *)

Section outcomes_further.

Lemma bind_Throw {E A B} (x : outcome E A) (f : A → outcome E B) e :
  x ≫= f = Throw e ↔ x = Throw e ∨ ∃ y, x = Ok y ∧ f y = Throw e.
Proof.
  destruct x; simpl; split.
  - eauto.
  - intros [?|(? & ? & ?)]; by simplify_eq.
  - intros; simplify_eq. by left.
  - intros [?|(? & ? & ?)]; by simplify_eq.
  - done.
  - by intros [?|(? & ? & ?)].
  - done.
  - by intros [?|(? & ? & ?)].
Qed.

Lemma foldM_Throw {E A S} (f : A → S → outcome E S) xs (s : S) e :
  foldM f xs s = Throw e → ∃ x s0, x ∈ xs ∧ f x s0 = Throw e.
Proof.
  revert s. induction xs as [|x xs IH]; intros s; [done|].
  rewrite foldM_cons. intros [Hx|(s1 & _ & Hxs)]%bind_Throw.
  - exists x, s. split; [left|done].
  - destruct (IH _ Hxs) as (x' & s0 & ? & ?). exists x', s0. split; [by right|done].
Qed.

Lemma of_option_Throw {E A} (x : option A) (e : E) : of_option x ≠ Throw e.
Proof. by destruct x. Qed.

Lemma lookup_two_split {A} (xs : list A) i j x y :
  i < j → xs !! i = Some x → xs !! j = Some y →
  ∃ l1 l2 l3, xs = l1 ++ x :: l2 ++ y :: l3.
Proof.
  intros Hij Hi Hj.
  rewrite <-(take_drop_middle _ _ _ Hi). exists (take i xs).
  assert (drop (S i) xs !! (j - S i) = Some y) as Hj'.
  { rewrite lookup_drop. by replace (S i + (j - S i)) with j by lia. }
  rewrite <-(take_drop_middle _ _ _ Hj'). eauto.
Qed.

End outcomes_further.

Section further.

Context `{class_table cls}.
Implicit Types (s : state cls) (h : gmap loc (object cls)) (t : tree cls)
  (o : object cls) (m : ast_ptr cls) (p : ptr) (l a : loc)
  (k : cls * option (tree cls)) (ot : option (tree cls)).

Lemma delete_node_never_throws fuel p s e : delete_node fuel p s ≠ Throw e.
Proof.
  revert p s. induction fuel as [|fuel IH]; intros [l|] s; simpl; try done.
  destruct (heap s !! l) as [o|]; [|done].
  intros [Hfold|(s1 & _ & Hend)]%bind_Throw.
  - apply foldM_Throw in Hfold as (m & s0 & _ & Hm). by eapply IH.
  - by destruct (heap s1 !! l).
Qed.

Lemma delete_node_gone fuel a s s' :
  delete_node fuel (Some a) s = Ok s' → heap s' !! a = None.
Proof.
  destruct fuel as [|fuel]; simpl; [done|].
  destruct (heap s !! a) as [o|]; [|done].
  intros (s1 & _ & Hend)%bind_Ok. destruct (heap s1 !! a); [|done].
  simplify_eq. simpl. apply lookup_delete_eq.
Qed.

Lemma destroy_fields_shrinks fuel ms s s' :
  foldM (ast_ptr_dtor (delete_node fuel)) ms s = Ok s' →
  registry s' = registry s ∧ heap s' ⊆ heap s.
Proof.
  apply (foldM_invariant (λ s s', registry s' = registry s ∧ heap s' ⊆ heap s)).
  - done.
  - intros ??? [??] [??]. split; [congruence|by etrans].
  - intros m ?? _. apply delete_node_frame.
Qed.

Lemma destroy_fields_gone fuel ms s s' m a :
  foldM (ast_ptr_dtor (delete_node fuel)) ms s = Ok s' →
  m ∈ ms → m_ptr m = Some a → heap s' !! a = None.
Proof.
  revert s. induction ms as [|m' ms IH]; intros s Hfold Hin Ha.
  { by apply elem_of_nil in Hin. }
  rewrite foldM_cons in Hfold. apply bind_Ok in Hfold as (s1 & Hm' & Hms).
  apply elem_of_cons in Hin as [->|Hin]; [|by eapply IH].
  unfold ast_ptr_dtor in Hm'. rewrite Ha in Hm'.
  apply delete_node_gone in Hm'. apply destroy_fields_shrinks in Hms as [_ Hsub].
  by eapply lookup_weaken_None.
Qed.

Lemma destroy_fields_dangling fuel ms s m a :
  m ∈ ms → m_ptr m = Some a → heap s !! a = None →
  ∀ s', foldM (ast_ptr_dtor (delete_node fuel)) ms s ≠ Ok s'.
Proof.
  revert s. induction ms as [|m' ms IH]; intros s Hin Ha Hgone s' Hfold.
  { by apply elem_of_nil in Hin. }
  rewrite foldM_cons in Hfold. apply bind_Ok in Hfold as (s1 & Hm' & Hms).
  apply elem_of_cons in Hin as [->|Hin].
  - unfold ast_ptr_dtor in Hm'. rewrite Ha in Hm'.
    destruct fuel; simpl in Hm'; [done|]. by rewrite Hgone in Hm'.
  - apply delete_node_frame in Hm' as [_ Hsub].
    eapply IH; [done..| |done]. by eapply lookup_weaken_None.
Qed.

Lemma destroy_shared_fields fuel xs1 xs2 x y a s :
  m_ptr y = Some a → x ∈ xs2 → m_ptr x = Some a →
  ∀ s', foldM (ast_ptr_dtor (delete_node fuel)) (xs1 ++ y :: xs2) s ≠ Ok s'.
Proof.
  intros Hy Hx Hxa s' Hfold. rewrite foldM_app in Hfold.
  apply bind_Ok in Hfold as (sa & _ & Hfold). rewrite foldM_cons in Hfold.
  apply bind_Ok in Hfold as (sb & Hdel & Hfold).
  unfold ast_ptr_dtor in Hdel. rewrite Hy in Hdel. apply delete_node_gone in Hdel.
  by eapply destroy_fields_dangling.
Qed.

Lemma not_returning {A} (x : outcome (exn cls) A) :
  (∀ y, x ≠ Ok y) → (∀ e, x ≠ Throw e) → x = Undefined ∨ x = OutOfFuel.
Proof. destruct x; intros HOk HThrow; eauto; [by destruct (HOk a)|by destruct (HThrow e)]. Qed.

(** X1.  Double ownership inside one object.  When two fields of an object
    hold the same node, deleting the object never returns: the second
    destructor deletes a node that is gone, which is undefined. *)
Theorem deleting_an_object_with_a_shared_field i j fuel l o mi mj a s :
  heap s !! l = Some o →
  o_fields o !! i = Some mi → o_fields o !! j = Some mj → i ≠ j →
  m_ptr mi = Some a → m_ptr mj = Some a →
  delete_node fuel (Some l) s = Undefined ∨ delete_node fuel (Some l) s = OutOfFuel.
Proof.
  intros Hl Hi Hj Hne Hia Hja.
  apply not_returning; [|intros e; apply delete_node_never_throws].
  intros s' Hdel. destruct fuel as [|fuel]; simpl in Hdel; [done|].
  rewrite Hl in Hdel. apply bind_Ok in Hdel as (s1 & Hfold & _).
  assert (∃ f1 f2 f3 x y, o_fields o = f1 ++ x :: f2 ++ y :: f3 ∧
            m_ptr x = Some a ∧ m_ptr y = Some a) as (f1 & f2 & f3 & x & y & Heq & Hx & Hy).
  { destruct (decide (i < j)).
    - destruct (lookup_two_split (o_fields o) i j mi mj) as (f1 & f2 & f3 & ?);
        [done..|]. eauto 10.
    - destruct (lookup_two_split (o_fields o) j i mj mi) as (f1 & f2 & f3 & ?);
        [lia|done..|]. eauto 10. }
  rewrite Heq in Hfold.
  rewrite reverse_app, reverse_cons, reverse_app, reverse_cons in Hfold.
  rewrite <-!app_assoc in Hfold. simpl in Hfold.
  eapply (destroy_shared_fields fuel (reverse f3) (reverse f2 ++ x :: reverse f1) x y);
    [done| |done|exact Hfold].
  apply elem_of_app. right. left.
Qed.

(** X2.  Double ownership across objects.  When two objects each have a field
    holding the same node, as after constructing an [ast_ptr] from the raw
    pointer another one owns, and the first object has been deleted, then
    deleting the second never returns. *)
Theorem deleting_the_second_owner fuel1 fuel2 l1 o1 m1 l2 o2 m2 a s s1 :
  heap s !! l1 = Some o1 → m1 ∈ o_fields o1 → m_ptr m1 = Some a →
  heap s !! l2 = Some o2 → m2 ∈ o_fields o2 → m_ptr m2 = Some a →
  delete_node fuel1 (Some l1) s = Ok s1 →
  delete_node fuel2 (Some l2) s1 = Undefined ∨
  delete_node fuel2 (Some l2) s1 = OutOfFuel.
Proof.
  intros Hl1 Hm1 Ha1 Hl2 Hm2 Ha2 Hdel1.
  apply not_returning; [|intros e; apply delete_node_never_throws].
  assert (heap s1 !! a = None ∧ heap s1 ⊆ heap s) as [Hgone Hsub].
  { split; [|by apply delete_node_frame in Hdel1 as [_ ?]].
    destruct fuel1 as [|fuel1]; simpl in Hdel1; [done|].
    rewrite Hl1 in Hdel1. apply bind_Ok in Hdel1 as (s' & Hfold & Hend).
    destruct (heap s' !! l1); [|done]. simplify_eq. simpl.
    eapply lookup_weaken_None; [|apply delete_subseteq].
    eapply (destroy_fields_gone _ _ _ _ m1); [done| |done]. by apply elem_of_reverse. }
  intros s2 Hdel2. destruct fuel2 as [|fuel2]; simpl in Hdel2; [done|].
  destruct (heap s1 !! l2) as [o2'|] eqn:Hl2'; [|done].
  pose proof (lookup_weaken _ _ _ _ Hl2' Hsub) as Heq. rewrite Hl2 in Heq. simplify_eq.
  apply bind_Ok in Hdel2 as (s' & Hfold & _).
  eapply (destroy_fields_dangling _ _ _ m2); [| | |exact Hfold]; [|done..].
  by apply elem_of_reverse.
Qed.

(** X3.  [~ast_ptr] releases exactly what the member owns: every object of
    the owned subtree is gone, every other object is as it was, and the heap
    has lost as many objects as the subtree has. *)
Theorem destructor_releases_the_owned_subtree n fuel m ot s :
  n ≤ fuel →
  read_ptr n (heap s) (m_ptr m) = Some ot →
  NoDup (addrs_opt ot) →
  ∃ s',
    ast_ptr_dtor (delete_node fuel) m s = Ok s' ∧
    registry s' = registry s ∧
    (∀ a, a ∈ addrs_opt ot → heap s' !! a = None) ∧
    (∀ a, a ∉ addrs_opt ot → heap s' !! a = heap s !! a) ∧
    size (heap s') + length (addrs_opt ot) = size (heap s).
Proof.
  intros Hle Hrd Hnd.
  destruct (delete_node_owned n fuel _ _ _ Hle Hrd Hnd) as (s' & Hdel & Hreg & Hfr).
  exists s'. split_and!; [done|done| | |].
  - intros a Ha. by rewrite Hfr, decide_True.
  - intros a Ha. by rewrite Hfr, decide_False.
  - assert (dom (heap s') = dom (heap s) ∖ list_to_set (addrs_opt ot)) as Hdom.
    { apply set_eq. intros a. rewrite elem_of_difference, !elem_of_dom, Hfr.
      rewrite elem_of_list_to_set. case_decide; [|tauto].
      split; [by intros []|tauto]. }
    assert (list_to_set (addrs_opt ot) ⊆ dom (heap s)) as Hsub.
    { intros a Ha%elem_of_list_to_set. apply elem_of_dom. by eapply read_ptr_dom. }
    rewrite <-!size_dom, Hdom, size_difference by done.
    rewrite (size_list_to_set (C:=gset loc)) by done.
    apply subseteq_size in Hsub. rewrite (size_list_to_set (C:=gset loc)) in Hsub by done.
    lia.
Qed.

(** X4.  Whatever the heap, [~ast_ptr] never throws, and when it returns
    it has only removed objects: the survivors and the registry are as they
    were. *)
Theorem destructor_only_removes fuel m s :
  (∀ e, ast_ptr_dtor (delete_node fuel) m s ≠ Throw e) ∧
  (∀ s', ast_ptr_dtor (delete_node fuel) m s = Ok s' →
     registry s' = registry s ∧ heap s' ⊆ heap s).
Proof.
  split.
  - intros e. apply delete_node_never_throws.
  - intros s'. apply delete_node_frame.
Qed.

(** X5.  [ast_ptr<T>::construct] throws in one situation only: the stack is
    not empty and its top is the null pointer or a live node whose class is
    neither [T] nor derived from it.  The exception is the [std::logic_error]
    "invalid AST node", raised with the stack and the store untouched. *)
Theorem construct_throws_exactly_on_a_type_error fuel this st s e :
  ast_ptr_construct fuel this st s = Throw e ↔
  e = Exn invalid_AST_node st s ∧
  ∃ m node, get_member this s = Some m ∧ last st = Some node ∧
    (node = None ∨
     ∃ l o, node = Some l ∧ heap s !! l = Some o ∧ is_a (o_class o) (m_T m) = false).
Proof.
  unfold ast_ptr_construct. split.
  - destruct (get_member this s) as [m|]; [|done]. simpl.
    destruct (last st) as [node|]; [|done]. simpl.
    destruct node as [l|]; simpl.
    + destruct (heap s !! l) as [o|] eqn:Hl; [|done]. simpl.
      destruct (is_a (o_class o) (m_T m)) eqn:Hisa.
      * intros [Hdel|(s1 & _ & Hset)]%bind_Throw.
        { by apply delete_node_never_throws in Hdel. }
        apply bind_Throw in Hset as [Hset|(? & _ & ?)]; [|done].
        by apply of_option_Throw in Hset.
      * intros [= <-]. split; [done|]. exists m, (Some l). eauto 10.
    + intros [= <-]. split; [done|]. exists m, None. eauto.
  - intros (-> & m & node & -> & -> & Hnode). simpl.
    destruct Hnode as [->|(l & o & -> & Hl & Hisa)]; simpl; [done|].
    rewrite Hl. simpl. by rewrite Hisa.
Qed.

(** X6.  Whenever [ast_ptr<T>::construct] returns, on any store: the stack
    has lost exactly its last element, a live node of type [T], which the
    member now holds; the registry is as before; and no object was created,
    no class and no member vector changed; only the object of the member
    differs, in that field. *)
Theorem construct_returns_only_by_claiming_the_top fuel this st s st' s' :
  ast_ptr_construct fuel this st s = Ok (st', s') →
  ∃ m top,
    get_member this s = Some m ∧
    st = st' ++ [Some top] ∧ has_type s top (m_T m) ∧
    get_member this s' = Some (AstPtr (m_T m) (Some top)) ∧
    registry s' = registry s ∧
    ∀ c o', heap s' !! c = Some o' →
      ∃ o, heap s !! c = Some o ∧ o_class o' = o_class o ∧
           m_members o' = m_members o ∧ (c ≠ this.1 → o' = o).
Proof.
  unfold ast_ptr_construct. intros Hrun.
  destruct (get_member this s) as [m|] eqn:Hm; [|done]. simpl in Hrun.
  destruct (last st) as [node|] eqn:Hlast; [|done]. simpl in Hrun.
  apply last_Some in Hlast as [st0 ->].
  destruct node as [top|]; [|done]. simpl in Hrun.
  destruct (heap s !! top) as [o|] eqn:Htop; [|done]. simpl in Hrun.
  destruct (is_a (o_class o) (m_T m)) eqn:Hisa; [|done].
  apply bind_Ok in Hrun as (s1 & Hdel & Hrun).
  apply bind_Ok in Hrun as (s2 & Hset & Hrun).
  rewrite removelast_last in Hrun. simplify_eq.
  apply delete_node_frame in Hdel as [Hreg Hsub].
  apply of_option_Ok in Hset. unfold set_m_ptr in Hset.
  destruct (heap s1 !! this.1) as [oc|] eqn:Hoc; [|done].
  destruct (o_fields oc !! this.2) as [m'|] eqn:Hm'; [|done]. simplify_eq.
  pose proof (lookup_weaken _ _ _ _ Hoc Hsub) as Hoc0.
  assert (m' = m) as ->.
  { apply get_member_Some in Hm as (oc' & ? & ?). by simplify_eq. }
  exists m, top. split_and!; try done.
  - by exists o.
  - apply get_member_Some. eexists. simpl. rewrite lookup_insert_eq. split; [done|].
    simpl. apply list_lookup_insert_eq. by eapply lookup_lt_Some.
  - intros c o' Hc. simpl in Hc. destruct (decide (c = this.1)) as [->|Hne].
    + rewrite lookup_insert_eq in Hc. simplify_eq. by exists oc.
    + rewrite lookup_insert_ne in Hc by done. exists o'.
      split_and!; try done. by eapply lookup_weaken.
Qed.

Lemma get_member_accessors this s m :
  get_member this s = Some m →
  get this s = Ok (m_ptr m) ∧ operator_T_ptr this s = Ok (m_ptr m) ∧
  operator_arrow this s = of_option (m_ptr m).
Proof. intros Hm. unfold get, operator_T_ptr, operator_arrow. by rewrite Hm. Qed.

Lemma ast_ptr_construct_member n fuel this m st top o ot s :
  n ≤ fuel →
  get_member this s = Some m →
  heap s !! top = Some o → is_a (o_class o) (m_T m) = true →
  read_ptr n (heap s) (m_ptr m) = Some ot →
  NoDup (addrs_opt ot) → this.1 ∉ addrs_opt ot →
  ∃ s',
    ast_ptr_construct fuel this (st ++ [Some top]) s = Ok (st, s') ∧
    get_member this s' = Some (AstPtr (m_T m) (Some top)) ∧
    ∀ a, a ≠ this.1 →
      heap s' !! a = if decide (a ∈ addrs_opt ot) then None else heap s !! a.
Proof.
  intros Hle Hm Htop Hisa Hrd Hnd Hnotin.
  destruct (ast_ptr_construct_owned n fuel this m st top o ot s)
    as (s' & oc & Hcons & _ & Hoc & Hl & Hfr); try done.
  apply get_member_Some in Hm as (oc' & Hoc' & Hfield). simplify_eq.
  exists s'. split_and!; try done.
  apply get_member_Some. eexists. split; [done|]. simpl.
  apply list_lookup_insert_eq. by eapply lookup_lt_Some.
Qed.

(** X7.  After [construct] has claimed a node that the member did not own,
    [get], [operator T *] and [operator ->] all return that node, which is
    still alive. *)
Theorem claimed_node_is_accessible n fuel this m st top ot s :
  n ≤ fuel →
  get_member this s = Some m →
  has_type s top (m_T m) →
  read_ptr n (heap s) (m_ptr m) = Some ot →
  NoDup (addrs_opt ot) → this.1 ∉ addrs_opt ot →
  top ∉ addrs_opt ot → top ≠ this.1 →
  ∃ s',
    ast_ptr_construct fuel this (st ++ [Some top]) s = Ok (st, s') ∧
    get this s' = Ok (Some top) ∧
    operator_T_ptr this s' = Ok (Some top) ∧
    operator_arrow this s' = Ok top ∧
    has_type s' top (m_T m).
Proof.
  intros Hle Hm (o & Htop & Hisa) Hrd Hnd Hnotin Htopnot Hne.
  destruct (ast_ptr_construct_member n fuel this m st top o ot s)
    as (s' & Hcons & Hget & Hfr); try done.
  destruct (get_member_accessors _ _ _ Hget) as (? & ? & ?).
  exists s'. split_and!; try done.
  exists o. split; [|done]. by rewrite Hfr, decide_False.
Qed.

(** X8.  [construct] does not check the top of the stack against what the
    member owns.  When the top is a node of the subtree the member already
    owns, [construct] returns normally, but the node was deleted with the old
    value: the member, [get] and [operator ->] hold a dangling pointer. *)
Theorem construct_on_an_owned_top_dangles n fuel this m st top a t s :
  n ≤ fuel →
  get_member this s = Some m → m_ptr m = Some a →
  read_tree n (heap s) a = Some t → NoDup (addrs t) → this.1 ∉ addrs t →
  top ∈ addrs t → has_type s top (m_T m) →
  ∃ s',
    ast_ptr_construct fuel this (st ++ [Some top]) s = Ok (st, s') ∧
    get this s' = Ok (Some top) ∧
    operator_arrow this s' = Ok top ∧
    heap s' !! top = None.
Proof.
  intros Hle Hm Ha Ht Hnd Hnotin Htopin (o & Htop & Hisa).
  destruct (ast_ptr_construct_member n fuel this m st top o (Some t) s)
    as (s' & Hcons & Hget & Hfr); try done.
  { rewrite Ha. simpl. by rewrite Ht. }
  destruct (get_member_accessors _ _ _ Hget) as (? & ? & ?).
  exists s'. split_and!; try done.
  rewrite Hfr by (by intros ->). by rewrite decide_True.
Qed.


(** X10.  Assigning the null pointer, or an [ast_ptr] that holds it (the
    member itself included, when it holds null), resets the member: the
    owned subtree is released, the member holds null, so that [operator ->]
    fails its assertion, [members()] of its container is unchanged and no
    other object changes. *)
Theorem assigning_null_releases n fuel this m old s :
  n ≤ fuel →
  get_member this s = Some m →
  read_ptr n (heap s) (m_ptr m) = Some old →
  NoDup (addrs_opt old) → this.1 ∉ addrs_opt old →
  ∃ s',
    ast_ptr_assign_raw fuel this None s = Ok s' ∧
    (∀ src msrc, get_member src s = Some msrc → m_ptr msrc = None →
       src.1 ∉ addrs_opt old → ast_ptr_assign fuel this src s = Ok s') ∧
    get this s' = Ok None ∧
    operator_arrow this s' = Undefined ∧
    members this.1 s' = members this.1 s ∧
    (∀ x, x ∈ addrs_opt old → heap s' !! x = None) ∧
    (∀ x, x ∉ addrs_opt old → x ≠ this.1 → heap s' !! x = heap s !! x).
Proof.
  intros Hle Hm Hold Hnd Hthis.
  destruct (delete_node_owned n fuel _ _ _ Hle Hold Hnd) as (s1 & Hdel & _ & Hfr).
  pose proof Hm as (oc & Hoc & Hfield)%get_member_Some.
  assert (heap s1 !! this.1 = Some oc) as Hoc1 by by rewrite Hfr, decide_False.
  set (s' := set_heap (<[this.1 := Object (o_class oc) (m_members oc)
                         (<[this.2 := AstPtr (m_T m) None]> (o_fields oc))]>
                         (heap s1)) s1).
  assert (of_option (E:=exn cls) (set_m_ptr this None s1) = Ok s') as Hset.
  { unfold set_m_ptr. by rewrite Hoc1, Hfield. }
  assert (get_member this s' = Some (AstPtr (m_T m) None)) as Hget.
  { apply get_member_Some. eexists. simpl. rewrite lookup_insert_eq. split; [done|].
    simpl. apply list_lookup_insert_eq. by eapply lookup_lt_Some. }
  exists s'. split_and!.
  - unfold ast_ptr_assign_raw. rewrite Hm. simpl. rewrite Hdel. simpl. exact Hset.
  - intros src msrc Hsrc Hnull Hsrcnot.
    unfold ast_ptr_assign. rewrite Hm. simpl. rewrite Hdel. simpl.
    assert (get_member src s1 = Some msrc) as ->.
    { unfold get_member in *. by rewrite Hfr, decide_False. }
    simpl. rewrite Hnull. simpl. exact Hset.
  - by apply get_member_accessors in Hget as (? & _).
  - by apply get_member_accessors in Hget as (_ & _ & ?).
  - unfold members. simpl. by rewrite lookup_insert_eq, Hoc.
  - intros x Hx. simpl. rewrite lookup_insert_ne by (by intros <-).
    by rewrite Hfr, decide_True.
  - intros x Hx Hne. simpl. rewrite lookup_insert_ne by done.
    by rewrite Hfr, decide_False.
Qed.

(** X11.  [_parse_proc] has no handler around [construct].  When the top of
    the stack does not fit the last field of [T], which [construct] fills
    first, the exception leaves [_parse_proc] with the stack as it was and
    the node allocated by [new T] still in the store, on no stack and owned
    by no member. *)
Theorem parse_proc_leaks_on_type_error fuel T Ts Tlast st top o s :
  fields T = Ts ++ [Tlast] →
  heap s !! top = Some o → is_a (o_class o) Tlast = false →
  ∃ obj e,
    _parse_proc fuel T (st ++ [Some top]) s = Throw e ∧
    exn_stack e = st ++ [Some top] ∧
    heap s !! obj = None ∧
    registry (exn_state e) = registry s ∧
    heap (exn_state e) =
      <[obj := Object T (imap (λ i _, (obj, i)) (fields T))
                 ((λ Ti, AstPtr Ti None) <$> fields T)]> (heap s).
Proof.
  intros Hfields Htop Hisa.
  set (l := fresh (dom (heap s))).
  assert (heap s !! l = None) as Hfresh.
  { apply not_elem_of_dom. apply is_fresh. }
  set (s1 := set_heap (<[l := Object T (imap (λ i _, (l, i)) (fields T))
                                ((λ Ti, AstPtr Ti None) <$> fields T)]> (heap s)) s).
  assert (ast_ptr_construct fuel (l, length Ts) (st ++ [Some top]) s1 =
          Throw (Exn invalid_AST_node (st ++ [Some top]) s1)) as Hthrow.
  { unfold ast_ptr_construct, get_member. simpl. rewrite lookup_insert_eq. simpl.
    rewrite Hfields, fmap_app. simpl.
    rewrite list_lookup_middle by by rewrite length_fmap. simpl.
    rewrite last_snoc. simpl.
    rewrite lookup_insert_ne by congruence. rewrite Htop. simpl. by rewrite Hisa. }
  exists l, (Exn invalid_AST_node (st ++ [Some top]) s1). split_and!; try done.
  unfold _parse_proc. rewrite new_default_Ok. fold l s1.
  cbn [mbind outcome_bind bind]. unfold ast_container_construct.
  simpl. rewrite lookup_insert_eq. simpl.
  rewrite Hfields, imap_app, reverse_app. simpl. rewrite Nat.add_0_r.
  change (reverse [(l, length Ts)]) with [(l, length Ts)]. simpl.
  by rewrite Hthrow.
Qed.

End further.

(** * The properties on the client program *)

Section client.

Import Client.

(** C1 on the conditional of the client: its three fields take the three
    numbers in order, and the number its last field owned is released. *)
Lemma construct_pairs_fields_in_order_witness :
  ∃ s',
    ast_container_construct 1 3 [Some 0; Some 1; Some 2] cond_built = Ok ([], s') ∧
    get_member (3, 0) s' = Some (AstPtr Expr (Some 0)) ∧
    get_member (3, 1) s' = Some (AstPtr Expr (Some 1)) ∧
    get_member (3, 2) s' = Some (AstPtr Expr (Some 2)) ∧
    heap s' !! 0 = heap cond_built !! 0 ∧ heap s' !! 1 = heap cond_built !! 1 ∧
    heap s' !! 2 = heap cond_built !! 2.
Proof.
  apply (construct_pairs_fields_in_order 1 1 3 Cond Expr Expr Expr
           None None (Some (Node 4 Num [] [])) 0 1 2 [] cond_built).
  - lia.
  - vm_compute; reflexivity.
  - decided.
  - typed.
  - typed.
  - typed.
  - decided.
  - decided.
  - decided.
Defined.

(** C3 on the sum of the client: its first field trades the number at 0 for
    the number at 3. *)
Lemma construct_claims_the_top_witness :
  ∃ s',
    ast_ptr_construct 1 (2, 0) [Some 1; Some 3] sum_and_number = Ok ([Some 1], s') ∧
    length [Some 1] = length [Some 1; Some 3] - 1 ∧
    get_member (2, 0) s' = Some (AstPtr Expr (Some 3)) ∧
    (∀ a, a ∈ [0] → heap s' !! a = None) ∧
    (∀ a, a ∉ [0] → a ≠ 2 → heap s' !! a = heap sum_and_number !! a) ∧
    registry s' = registry sum_and_number.
Proof.
  apply (construct_claims_the_top 1 1 (2, 0) (AstPtr Expr (Some 0)) [Some 1] 3
           (Some (Node 0 Num [] [])) sum_and_number).
  - lia.
  - vm_compute; reflexivity.
  - typed.
  - vm_compute; reflexivity.
  - decided.
  - decided.
Defined.

(** C2 as amended, on a negation offered a sum. *)
Lemma construct_type_error_keeps_stack_witness :
  ast_ptr_construct 1 (1, 0) [Some 0] mismatch =
  Throw (Exn invalid_AST_node [Some 0] mismatch).
Proof.
  apply (construct_type_error_keeps_stack 1 (1, 0) (AstPtr Num None) [] 0 (leaf Add)
           mismatch); vm_compute; reflexivity.
Defined.

(** C2 as stated fails: the stack in flight with the error is the whole
    stack, not the stack without its top. *)
Lemma construct_pops_on_error_counterexample :
  ∃ e, ast_ptr_construct 1 (1, 0) [Some 0] mismatch = Throw e ∧
       exn_stack e = [Some 0] ∧ exn_stack e ≠ removelast [Some 0].
Proof. eexists. split; [vm_compute; reflexivity|]. by split. Qed.

(** C4 on the client: a sum is built from two numbers. *)
Lemma parse_proc_stack_discipline_witness :
  ∃ obj s',
    _parse_proc 0 Add [Some 0; Some 1] two_numbers = Ok ([Some obj], s') ∧
    heap two_numbers !! obj = None ∧
    registry s' = registry two_numbers ∧
    heap s' = <[obj := Object Add [(obj, 0); (obj, 1)]
                         [AstPtr Expr (Some 0); AstPtr Expr (Some 1)]]>
                (heap two_numbers) ∧
    length [Some obj] = length [Some 0; Some 1] - 2 + 1 ∧
    last [Some obj] = Some (Some obj).
Proof.
  refine (parse_proc_stack_discipline 0 Add [] [0; 1] two_numbers _).
  repeat constructor; typed.
Defined.

(** C9 on a number of the client. *)
Lemma construct_without_members_witness :
  ast_container_construct 0 0 [Some 1; Some 2] sum = Ok ([Some 1; Some 2], sum).
Proof.
  apply (construct_without_members 0 0 (leaf Num)); vm_compute; reflexivity.
Defined.

(** C10 on the wrapper of the client that owns the sum. *)
Lemma self_assignment_uses_deleted_object_witness :
  (∃ s1, delete_node 2 (Some 2) wraps = Ok s1 ∧ heap s1 !! 2 = None ∧
         get_member (3, 0) s1 = Some (AstPtr Add (Some 2))) ∧
  ast_ptr_assign 2 (3, 0) (3, 0) wraps = Undefined ∧
  (∀ obj, get (3, 0) wraps = Ok obj → ast_ptr_assign_raw 2 (3, 0) obj wraps = Undefined).
Proof.
  apply (self_assignment_uses_deleted_object 2 2 (3, 0) (AstPtr Add (Some 2)) 2
           sum_tree wraps).
  - lia.
  - vm_compute; reflexivity.
  - reflexivity.
  - vm_compute; reflexivity.
  - decided.
  - decided.
Defined.



(** C6 on the client: the fields of two wrappers built in nested windows, a
    default-constructed conditional, and a copy of the sum made while the
    wrapper at 5 is under construction. *)
Lemma registry_is_a_stack_of_active_containers_witness :
  (∃ s',
     (s1 ← ast_member_ctor (3, 1) (ast_container_ctor 3 wrap_under_construction);
      s2 ← ast_member_copy_ctor (4, 1) (3, 1) (ast_container_copy_ctor 4 3 s1);
      s3 ← ast_container_constructed 4 s2;
      s4 ← ast_member_ctor (3, 2) s3;
      ast_container_constructed 3 s4) = Ok s' ∧
     registry s' = [5] ∧
     heap s' !! 3 = Some (Object Wrap [(3, 0); (3, 1); (3, 2)] [AstPtr Add (Some 2)]) ∧
     heap s' !! 4 = Some (Object Wrap [(4, 0); (4, 1)] [AstPtr Add None]) ∧
     ∀ x, x ≠ 3 → x ≠ 4 → heap s' !! x = heap wrap_under_construction !! x) ∧
  new_default Cond wrap_under_construction =
    Ok (6, set_heap (<[6 := Object Cond [(6, 0); (6, 1); (6, 2)]
                            [AstPtr Expr None; AstPtr Expr None; AstPtr Expr None]]>
                       (heap wrap_under_construction)) wrap_under_construction) ∧
  ∃ a' s' ta',
    new_copy 2 Add 2 wrap_under_construction = Ok (a', s') ∧
    registry s' = [5] ∧
    read_tree 2 (heap s') a' = Some ta' ∧
    shape_of ta' = Shape Add [(Expr, Some (Shape Expr [])); (Expr, Some (Shape Expr []))] ∧
    registered ta' ∧
    NoDup (addrs ta') ∧
    (∀ x, x ∈ addrs ta' → heap wrap_under_construction !! x = None) ∧
    (∀ x, x ∉ addrs ta' → heap s' !! x = heap wrap_under_construction !! x).
Proof.
  destruct (registry_is_a_stack_of_active_containers 2 2 wrap_under_construction)
    as (_ & _ & _ & Hnested & Hdefault & Hcopy).
  split_and!.
  - apply (Hnested 3 4 (Object Wrap [(3, 0)] [AstPtr Add (Some 2)])
             (Object Wrap [(4, 0)] [AstPtr Add None]) (3, 1) (4, 1) (3, 2));
      [lia|vm_compute; reflexivity..].
  - exact (Hdefault Cond).
  - apply (Hcopy ltac:(lia) Add 2 sum_tree); vm_compute; reflexivity.
Defined.

(** C7 on the wrappers of the client. *)
Lemma assignment_never_registers_witness :
  ∃ s',
    ast_ptr_assign 2 (4, 0) (3, 0) wraps = Ok s' ∧
    ∃ o', heap s' !! 4 = Some o' ∧ m_members o' = [(4, 0)].
Proof.
  eexists. split; [vm_compute; reflexivity|].
  destruct (assignment_never_registers 2 2 (4, 0) (3, 0) None (AstPtr Add None) None wraps)
    as (_ & Hassign & _).
  refine (Hassign _ _ _ _ _ _ 4 (Object Wrap [(4, 0)] [AstPtr Add None]) _ _).
  - lia.
  - vm_compute; reflexivity.
  - reflexivity.
  - decided.
  - left. vm_compute; reflexivity.
  - vm_compute; reflexivity.
  - decided.
Defined.

(** C8 with the engine of the client. *)
Lemma parse_returns_the_single_root_witness :
  parse engine (true, [Some 2]) () () [] sum = Ok (Some 2, [], sum) ∧
  parse engine (false, [Some 0; Some 1]) () () [] sum = Ok (None, [0], sum).
Proof.
  destruct (parse_returns_the_single_root engine (true, [Some 2]) () () [] sum)
    as (Hok & _ & _).
  destruct (parse_returns_the_single_root engine (false, [Some 0; Some 1]) () () [] sum)
    as (_ & Hfail & _).
  split.
  - by apply Hok.
  - by apply (Hfail [0] [Some 0; Some 1]).
Defined.

End client.

(** * The further properties on the client program *)

Section client_further.

Import Client.

(** X1 on the sum whose two fields hold the same number. *)
Lemma deleting_an_object_with_a_shared_field_witness :
  delete_node 2 (Some 2) shared_number = Undefined ∨
  delete_node 2 (Some 2) shared_number = OutOfFuel.
Proof.
  apply (deleting_an_object_with_a_shared_field 0 1 2 2
           (Object Add [(2, 0); (2, 1)] [AstPtr Expr (Some 0); AstPtr Expr (Some 0)])
           (AstPtr Expr (Some 0)) (AstPtr Expr (Some 0)) 0 shared_number);
    try (vm_compute; reflexivity).
  lia.
Defined.

(** X2 on the two wrappers that hold the same sum: deleting the wrapper at 3
    returns, deleting the wrapper at 5 afterwards does not. *)
Lemma deleting_the_second_owner_witness :
  ∃ s1, delete_node 3 (Some 3) aliased = Ok s1 ∧
    (delete_node 3 (Some 5) s1 = Undefined ∨ delete_node 3 (Some 5) s1 = OutOfFuel).
Proof.
  eexists. split; [vm_compute; reflexivity|].
  apply (deleting_the_second_owner 3 3 3 (Object Wrap [(3, 0)] [AstPtr Add (Some 2)])
           (AstPtr Add (Some 2)) 5 (Object Wrap [(5, 0)] [AstPtr Add (Some 2)])
           (AstPtr Add (Some 2)) 2 aliased).
  - vm_compute; reflexivity.
  - constructor.
  - reflexivity.
  - vm_compute; reflexivity.
  - constructor.
  - reflexivity.
  - vm_compute; reflexivity.
Defined.

(** X3 on the field of the wrapper at 3: the sum and its two numbers go. *)
Lemma destructor_releases_the_owned_subtree_witness :
  ∃ s',
    ast_ptr_dtor (delete_node 2) (AstPtr Add (Some 2)) wraps = Ok s' ∧
    registry s' = registry wraps ∧
    (∀ a, a ∈ [2; 0; 1] → heap s' !! a = None) ∧
    (∀ a, a ∉ [2; 0; 1] → heap s' !! a = heap wraps !! a) ∧
    size (heap s') + 3 = size (heap wraps).
Proof.
  apply (destructor_releases_the_owned_subtree 2 2 (AstPtr Add (Some 2))
           (Some sum_tree) wraps).
  - lia.
  - vm_compute; reflexivity.
  - decided.
Defined.

(** X4 on the field of the wrapper at 3. *)
Lemma destructor_only_removes_witness :
  ∃ s',
    ast_ptr_dtor (delete_node 2) (AstPtr Add (Some 2)) wraps = Ok s' ∧
    registry s' = registry wraps ∧ heap s' ⊆ heap wraps.
Proof.
  eexists. split; [vm_compute; reflexivity|].
  apply (proj2 (destructor_only_removes 2 (AstPtr Add (Some 2)) wraps)).
  vm_compute; reflexivity.
Defined.

(** X5, from right to left, on a negation offered the null pointer. *)
Lemma construct_throws_exactly_on_a_type_error_witness :
  ast_ptr_construct 0 (1, 0) [Some 0; None] mismatch =
  Throw (Exn invalid_AST_node [Some 0; None] mismatch).
Proof.
  apply (proj2 (construct_throws_exactly_on_a_type_error 0 (1, 0) [Some 0; None]
                  mismatch (Exn invalid_AST_node [Some 0; None] mismatch))).
  split; [reflexivity|]. exists (AstPtr Num None), None.
  split_and!; [vm_compute; reflexivity|reflexivity|by left].
Defined.

(** X6 on the first field of the sum, which claims the number at 3. *)
Lemma construct_returns_only_by_claiming_the_top_witness :
  ∃ s',
    ast_ptr_construct 1 (2, 0) [Some 1; Some 3] sum_and_number = Ok ([Some 1], s') ∧
    ∃ m top,
      get_member (2, 0) sum_and_number = Some m ∧
      [Some 1; Some 3] = [Some 1] ++ [Some top] ∧ has_type sum_and_number top (m_T m) ∧
      get_member (2, 0) s' = Some (AstPtr (m_T m) (Some top)) ∧
      registry s' = registry sum_and_number ∧
      ∀ c o', heap s' !! c = Some o' →
        ∃ o, heap sum_and_number !! c = Some o ∧ o_class o' = o_class o ∧
             m_members o' = m_members o ∧ (c ≠ (2, 0).1 → o' = o).
Proof.
  eexists. split; [vm_compute; reflexivity|].
  apply (construct_returns_only_by_claiming_the_top 1 (2, 0) [Some 1; Some 3]
           sum_and_number [Some 1]).
  vm_compute; reflexivity.
Defined.

(** X7 on the first field of the sum after it has claimed the number at 3. *)
Lemma claimed_node_is_accessible_witness :
  ∃ s',
    ast_ptr_construct 1 (2, 0) [Some 1; Some 3] sum_and_number = Ok ([Some 1], s') ∧
    get (2, 0) s' = Ok (Some 3) ∧
    operator_T_ptr (2, 0) s' = Ok (Some 3) ∧
    operator_arrow (2, 0) s' = Ok 3 ∧
    has_type s' 3 Expr.
Proof.
  apply (claimed_node_is_accessible 1 1 (2, 0) (AstPtr Expr (Some 0)) [Some 1] 3
           (Some (Node 0 Num [] [])) sum_and_number).
  - lia.
  - vm_compute; reflexivity.
  - typed.
  - vm_compute; reflexivity.
  - decided.
  - decided.
  - decided.
  - decided.
Defined.

(** X8 on the wrapper at 3, offered the very sum it owns. *)
Lemma construct_on_an_owned_top_dangles_witness :
  ∃ s',
    ast_ptr_construct 2 (3, 0) [Some 2] wraps = Ok ([], s') ∧
    get (3, 0) s' = Ok (Some 2) ∧
    operator_arrow (3, 0) s' = Ok 2 ∧
    heap s' !! 2 = None.
Proof.
  apply (construct_on_an_owned_top_dangles 2 2 (3, 0) (AstPtr Add (Some 2)) [] 2 2
           sum_tree wraps).
  - lia.
  - vm_compute; reflexivity.
  - reflexivity.
  - vm_compute; reflexivity.
  - decided.
  - decided.
  - decided.
  - typed.
Defined.


(** X10 on the field of the wrapper at 3. *)
Lemma assigning_null_releases_witness :
  ∃ s',
    ast_ptr_assign_raw 2 (3, 0) None wraps = Ok s' ∧
    (∀ src msrc, get_member src wraps = Some msrc → m_ptr msrc = None →
       src.1 ∉ [2; 0; 1] → ast_ptr_assign 2 (3, 0) src wraps = Ok s') ∧
    get (3, 0) s' = Ok None ∧
    operator_arrow (3, 0) s' = Undefined ∧
    members 3 s' = members 3 wraps ∧
    (∀ x, x ∈ [2; 0; 1] → heap s' !! x = None) ∧
    (∀ x, x ∉ [2; 0; 1] → x ≠ 3 → heap s' !! x = heap wraps !! x).
Proof.
  apply (assigning_null_releases 2 2 (3, 0) (AstPtr Add (Some 2)) (Some sum_tree) wraps).
  - lia.
  - vm_compute; reflexivity.
  - vm_compute; reflexivity.
  - decided.
  - decided.
Defined.

(** X11 on a negation, whose only field wants a number, with a sum on top of
    the stack. *)
Lemma parse_proc_leaks_on_type_error_witness :
  ∃ obj e,
    _parse_proc 0 Neg [Some 1; Some 0] mismatch = Throw e ∧
    exn_stack e = [Some 1; Some 0] ∧
    heap mismatch !! obj = None ∧
    registry (exn_state e) = registry mismatch ∧
    heap (exn_state e) =
      <[obj := Object Neg [(obj, 0)] [AstPtr Num None]]> (heap mismatch).
Proof.
  refine (parse_proc_leaks_on_type_error 0 Neg [] Num [Some 1] 0 (leaf Add) mismatch
            _ _ _); reflexivity.
Defined.

End client_further.
